(** Verification of the transaction dashboard's client-side logic.

    Sources embedded here:
    - [app/transactions/page.tsx]: the filter / search / sort / paginate
      derivation ([filteredAndSortedTransactions], [paginatedTransactions],
      [totalPages], [showingFrom], [showingTo]) and the page's event handlers;
    - [lib/csv.ts]: [escapeCsv], [transactionsToCsv];
    - [lib/theme.ts]: [getStoredTheme], [applyTheme], [initTheme];
    - [components/TransactionDetails.tsx]: [calculateFee];
    - [components/CreateTransactionForm.tsx]: the validation schema, the fee
      preview and the submitted request;
    - [components/Nav.tsx]: the theme switch.

    ECMAScript built-ins used by that code are modelled in [Module JS]. *)

From Stdlib Require Import List String Ascii ZArith QArith Qround Qabs Lia Bool.
From Stdlib Require Import Permutation Sorted DecimalString.
From stdpp Require gmap strings.
Import ListNotations.

Local Open Scope string_scope.
Local Open Scope Z_scope.

(** * ECMAScript built-ins *)

Module JS.

(** ** Numbers

    A Number is NaN, an infinity, or a finite binary64 value, which is kept
    as the rational it denotes.  The operations whose exact result may lie
    outside the format ([parseFloat], [sub], [mul]) round it with [round64].
    A zero carries no sign: nothing in this program tells the two zeros
    apart. *)
Inductive number : Type :=
| NaN
| Infinity (negative : bool)
| Finite (q : Q).

Definition isNaN (x : number) : bool :=
  match x with NaN => true | _ => false end.

Definition of_Z (z : Z) : number := Finite (inject_Z z).

Definition Qsign (q : Q) : comparison := Qcompare q 0.

(** The sign of a Number as a sort reads it: NaN counts as +0. *)
Definition sign (v : number) : comparison :=
  match v with
  | NaN => Eq
  | Infinity s => if s then Lt else Gt
  | Finite q => Qsign q
  end.

(** Unary minus. *)
Definition neg (x : number) : number :=
  match x with
  | NaN => NaN
  | Infinity s => Infinity (negb s)
  | Finite q => Finite (Qopp q)
  end.

(** Round to nearest, ties to even, of the quotient [N / D] of two positive
    integers. *)
Definition round_half_even (N D : Z) : Z :=
  let n := N / D in
  match Z.compare (2 * (N mod D)) D with
  | Lt => n
  | Eq => if Z.even n then n else n + 1
  | Gt => n + 1
  end.

(** The binary exponent of [n / d] for positive [n] and [d]: the [e] with
    [2^e <= n / d < 2^(e+1)]. *)
Definition floor_log2 (n d : Z) : Z :=
  let e := Z.log2 n - Z.log2 d in
  if n * 2 ^ Z.max 0 (- e) <? d * 2 ^ Z.max 0 e then e - 1 else e.

(** The Number value of a real: the binary64 value nearest to [q], the one
    with an even significand on a tie.  The significand has 53 bits down to
    the exponent -1022 and fewer below it; a magnitude that rounds to [2^1024]
    or beyond gives an infinity, one that rounds to nothing gives zero. *)
Definition round64 (q : Q) : number :=
  let n := Z.abs (Qnum q) in
  let d := Zpos (Qden q) in
  if n =? 0 then Finite 0
  else
    let negative := Qnum q <? 0 in
    let e := Z.max (floor_log2 n d) (-1022) in
    if 1024 <=? e then Infinity negative
    else
      let t := e - 52 in
      let m := round_half_even (n * 2 ^ Z.max 0 (- t)) (d * 2 ^ Z.max 0 t) in
      if ((e =? 1023) && (2 ^ 53 <=? m))%bool then Infinity negative
      else
        let v := if 0 <=? t then inject_Z (m * 2 ^ t)
                 else Qmake m (Z.to_pos (2 ^ (- t))) in
        Finite (if negative then Qopp v else v).

(** The binary64 values are multiples of the least positive one,
    [2^-1074]. *)
Definition grid (q : Q) : Prop :=
  exists k : Z, Qeq (Qmult q (inject_Z (2 ^ 1074))) (inject_Z k).

Definition onGrid (x : number) : Prop :=
  match x with Finite q => grid q | _ => True end.

(** [x - y]; opposite-signed infinities subtract to an infinity, equal-signed
    ones to NaN, and a finite difference is rounded. *)
Definition sub (x y : number) : number :=
  match x, y with
  | NaN, _ | _, NaN => NaN
  | Infinity s, Infinity t => if Bool.eqb s t then NaN else Infinity s
  | Infinity s, Finite _ => Infinity s
  | Finite _, Infinity t => Infinity (negb t)
  | Finite p, Finite q => round64 (Qminus p q)
  end.

(** [x * y]; zero times an infinity is NaN, and a finite product is rounded,
    to an infinity when it overflows. *)
Definition mul (x y : number) : number :=
  match x, y with
  | NaN, _ | _, NaN => NaN
  | Infinity s, Infinity t => Infinity (xorb s t)
  | Infinity s, Finite q | Finite q, Infinity s =>
      match Qsign q with
      | Eq => NaN
      | Gt => Infinity s
      | Lt => Infinity (negb s)
      end
  | Finite p, Finite q => round64 (Qmult p q)
  end.

(** The relational operator [x >= y] on Numbers: false when either is NaN. *)
Definition geb (x y : number) : bool :=
  match x, y with
  | NaN, _ | _, NaN => false
  | Infinity s, Infinity t => implb s t
  | Infinity s, Finite _ => negb s
  | Finite _, Infinity t => t
  | Finite p, Finite q => Qle_bool q p
  end.

(** [x <= y]. *)
Definition leb (x y : number) : bool := geb y x.

(** ** Strings *)

Definition is_digit (c : ascii) : bool :=
  ((48 <=? Z.of_nat (nat_of_ascii c)) && (Z.of_nat (nat_of_ascii c) <=? 57))%Z.

Definition digit_value (c : ascii) : Z := Z.of_nat (nat_of_ascii c) - 48.

(** StrWhiteSpaceChar, restricted to the one-byte code units: TAB, LF, VT, FF,
    CR and SPACE. *)
Definition is_whitespace (c : ascii) : bool :=
  let n := nat_of_ascii c in
  (Nat.eqb n 9 || Nat.eqb n 10 || Nat.eqb n 11 || Nat.eqb n 12
   || Nat.eqb n 13 || Nat.eqb n 32)%bool.

Fixpoint trimStart (s : string) : string :=
  match s with
  | String c s' => if is_whitespace c then trimStart s' else s
  | EmptyString => EmptyString
  end.

(** The longest run of decimal digits at the head of [s], and what follows. *)
Fixpoint span_digits (s : string) : string * string :=
  match s with
  | String c s' =>
      if is_digit c
      then let (d, r) := span_digits s' in (String c d, r)
      else (EmptyString, s)
  | EmptyString => (EmptyString, EmptyString)
  end.

Fixpoint digits_value (acc : Z) (s : string) : Z :=
  match s with
  | String c s' => digits_value (10 * acc + digit_value c) s'
  | EmptyString => acc
  end.

Definition is_empty (s : string) : bool :=
  match s with EmptyString => true | _ => false end.

(** ExponentPart, when one is present at the head of [s]: the indicator, an
    optional sign and at least one digit. *)
Definition exponent_part (s : string) : Z :=
  match s with
  | String c s' =>
      if (Ascii.eqb c "e" || Ascii.eqb c "E")%bool then
        let '(sgn, s'') :=
          match s' with
          | String d r =>
              if Ascii.eqb d "-" then (-1, r)
              else if Ascii.eqb d "+" then (1, r)
              else (1, s')
          | EmptyString => (1, s')
          end in
        let (ds, _) := span_digits s'' in
        if is_empty ds then 0 else sgn * digits_value 0 ds
      else 0
  | EmptyString => 0
  end.

(** StrUnsignedDecimalLiteral: the Number value of the longest prefix of [s]
    that is one, or NaN when no prefix is.  The mathematical value is rounded
    to the nearest binary64 value, as the engines do for a literal of any
    length. *)
Definition unsigned_literal (s : string) : number :=
  if String.prefix "Infinity" s then Infinity false
  else
    let (ip, r) := span_digits s in
    let '(fp, r') :=
      match r with
      | String c r1 =>
          if Ascii.eqb c "." then
            let (fp, r2) := span_digits r1 in
            if (is_empty ip && is_empty fp)%bool then (EmptyString, r)
            else (fp, r2)
          else (EmptyString, r)
      | EmptyString => (EmptyString, r)
      end in
    if (is_empty ip && is_empty fp)%bool then NaN
    else
      let m := digits_value 0 (ip ++ fp) in
      let e := exponent_part r' - Z.of_nat (String.length fp) in
      round64 (inject_Z m * Qpower (10 # 1) e).

(** The global [parseFloat]: leading white space is skipped, then the longest
    prefix that is a StrDecimalLiteral is evaluated; NaN when there is none. *)
Definition parseFloat (s : string) : number :=
  match trimStart s with
  | String c r =>
      if Ascii.eqb c "-" then neg (unsigned_literal r)
      else if Ascii.eqb c "+" then unsigned_literal r
      else unsigned_literal (String c r)
  | EmptyString => NaN
  end.

Fixpoint trimEnd (s : string) : string :=
  match s with
  | String c s' =>
      let r := trimEnd s' in
      if (is_empty r && is_whitespace c)%bool then EmptyString else String c r
  | EmptyString => EmptyString
  end.

(** [String.prototype.trim]. *)
Definition trim (s : string) : string := trimEnd (trimStart s).

(** [String.prototype.toLowerCase] on the one-byte code units: the letters
    A-Z map to a-z and every other unit to itself. *)
Definition lower_char (c : ascii) : ascii :=
  let n := nat_of_ascii c in
  if (Nat.leb 65 n && Nat.leb n 90)%bool then ascii_of_nat (n + 32) else c.

Fixpoint toLowerCase (s : string) : string :=
  match s with
  | String c s' => String (lower_char c) (toLowerCase s')
  | EmptyString => EmptyString
  end.

(** [s.includes(q)]: [q] occurs in [s] as a contiguous substring. *)
Fixpoint includes (s q : string) : bool :=
  if String.prefix q s then true
  else match s with
       | String _ s' => includes s' q
       | EmptyString => false
       end.

(** Every character of [s] satisfies [P]. *)
Fixpoint every (P : ascii -> bool) (s : string) : bool :=
  match s with
  | String c s' => (P c && every P s')%bool
  | EmptyString => true
  end.

(** [s.replace(/c/g, r)] for a one-character pattern. *)
Fixpoint replaceAll (c : ascii) (r : string) (s : string) : string :=
  match s with
  | String d s' =>
      if Ascii.eqb d c then r ++ replaceAll c r s'
      else String d (replaceAll c r s')
  | EmptyString => EmptyString
  end.

(** [/[cs]/.test(s)] for a character class [cs]. *)
Fixpoint test_class (cs : list ascii) (s : string) : bool :=
  match s with
  | String d s' => (existsb (Ascii.eqb d) cs || test_class cs s')%bool
  | EmptyString => false
  end.

(** [Array.prototype.join]. *)
Fixpoint join (sep : string) (l : list string) : string :=
  match l with
  | [] => EmptyString
  | [x] => x
  | x :: l' => x ++ sep ++ join sep l'
  end.

(** [a.localeCompare(b)] as a Number in {-1, 0, 1}, by code-unit order; on
    words of lower-case ASCII letters, the only arguments it gets here, this
    is the order of every collation. *)
Definition localeCompare (a b : string) : number :=
  match String.compare a b with
  | Lt => of_Z (-1)
  | Eq => of_Z 0
  | Gt => of_Z 1
  end.

(** ** Arrays *)

Section Arrays.
Context {A : Type}.

(** [Array.prototype.slice(start, end)]: negative indices count from the
    end, and both are clamped into [0, length]. *)
Definition slice (l : list A) (start stop : Z) : list A :=
  let len := Z.of_nat (List.length l) in
  let k := if start <? 0 then Z.max (len + start) 0 else Z.min start len in
  let final := if stop <? 0 then Z.max (len + stop) 0 else Z.min stop len in
  firstn (Z.to_nat (final - k)) (skipn (Z.to_nat k) l).

(** SortCompare: the sign of the comparator's result, a NaN result counting
    as +0. *)
Definition SortCompare (comparefn : A -> A -> number) (x y : A) : comparison :=
  sign (comparefn x y).

(** The test [order < 0] on the result of comparing [x] with [y]. *)
Definition lessThan (comparefn : A -> A -> number) (x y : A) : bool :=
  match SortCompare comparefn x y with Lt => true | _ => false end.

(** [Array.prototype.sort(comparefn)].  The language fixes the result when
    [comparefn] is a consistent comparator, the stable sorted permutation, and
    leaves the order to the implementation otherwise.  The sort is computed
    here as V8 (Node.js, Chrome) computes it for an array of fewer than 64
    elements: CountAndMakeRun takes the longest run at the head, non-descending
    or strictly descending, and reverses a descending one; BinaryInsertionSort
    then inserts each later element into the sorted part at the position a
    binary search finds.  A longer array, which V8 cuts into several such
    runs and merges, is sorted in the same way here; the two agree whenever
    [comparefn] is consistent. *)

(** The rest of the run after [previousElement]: the elements that compare
    below their predecessor when the run is descending, not below it when it
    is not; and what follows the run. *)
Fixpoint run_end (comparefn : A -> A -> number) (isDescending : bool)
    (previousElement : A) (l : list A) : list A * list A :=
  match l with
  | [] => ([], [])
  | currentElement :: l' =>
      if Bool.eqb (lessThan comparefn currentElement previousElement)
                  isDescending
      then let (run, rest) :=
             run_end comparefn isDescending currentElement l' in
           (currentElement :: run, rest)
      else ([], l)
  end.

Definition countAndMakeRun (comparefn : A -> A -> number) (l : list A)
  : list A * list A :=
  match l with
  | elementHigh :: elementLow :: l' =>
      let isDescending := lessThan comparefn elementLow elementHigh in
      let (run, rest) := run_end comparefn isDescending elementLow l' in
      let whole := elementHigh :: elementLow :: run in
      (if isDescending then rev whole else whole, rest)
  | _ => (l, [])
  end.

(** One insertion: the search range [l] is halved around its middle element
    until it is empty, to the left when [pivot] compares below the middle
    element and to the right otherwise.  [fuel] bounds the halvings and is
    always given more than the length of [l]. *)
Fixpoint binary_insert (fuel : nat) (comparefn : A -> A -> number)
    (pivot : A) (l : list A) : list A :=
  match fuel with
  | O => l ++ [pivot]
  | S fuel' =>
      let mid := Nat.div2 (List.length l) in
      match skipn mid l with
      | [] => l ++ [pivot]
      | m :: above =>
          let below := firstn mid l in
          if lessThan comparefn pivot m
          then binary_insert fuel' comparefn pivot below ++ m :: above
          else below ++ m :: binary_insert fuel' comparefn pivot above
      end
  end.

Definition binaryInsertionSort (comparefn : A -> A -> number)
    (run rest : list A) : list A :=
  fold_left
    (fun sorted pivot =>
       binary_insert (S (List.length sorted)) comparefn pivot sorted)
    rest run.

Definition sort (comparefn : A -> A -> number) (l : list A) : list A :=
  let (run, rest) := countAndMakeRun comparefn l in
  binaryInsertionSort comparefn run rest.
End Arrays.

(** [Math.ceil(n / d)] for a length [n] and a positive integer [d]. *)
Definition ceil_div (n d : Z) : Z := (n + d - 1) / d.

(** ** Number to string *)

(** The decimal digits of a non-negative integer. *)
Definition decimal (n : Z) : string :=
  NilZero.string_of_uint (N.to_uint (Z.to_N n)).

Fixpoint zeros (n : nat) : string :=
  match n with
  | O => EmptyString
  | S n' => String "0" (zeros n')
  end.

Fixpoint take (n : nat) (s : string) : string :=
  match n, s with
  | S n', String c s' => String c (take n' s')
  | _, _ => EmptyString
  end.

Fixpoint drop (n : nat) (s : string) : string :=
  match n, s with
  | S n', String _ s' => drop n' s'
  | _, _ => s
  end.

Fixpoint strip_trailing_zeros (s : string) : string :=
  match s with
  | String c s' =>
      let r := strip_trailing_zeros s' in
      if (is_empty r && Ascii.eqb c "0")%bool then EmptyString else String c r
  | EmptyString => EmptyString
  end.

(** Number::toString of a finite value [x >= 10^21], which is printed in
    exponential notation with the fewest significant digits that still denote
    [x]: the least [k] for which some [s * 10^p] of [k] digits rounds to [x],
    and of the two candidates around [x] the nearer one, the even one on a
    tie. *)
Definition denotes (x : Q) (s p : Z) : bool :=
  match round64 (inject_Z (s * 10 ^ p)) with
  | Finite y => Qeq_bool y x
  | _ => false
  end.

Fixpoint shortest (x : Z) (p : nat) : Z * Z :=
  let scale := 10 ^ Z.of_nat p in
  let lo := x / scale in
  let hi := lo + 1 in
  let here :=
    match Z.compare (x - lo * scale) (hi * scale - x) with
    | Lt => lo
    | Eq => if Z.even lo then lo else hi
    | Gt => hi
    end in
  match p with
  | O => (x, 0)
  | S p' =>
      match denotes (inject_Z x) lo (Z.of_nat p),
            denotes (inject_Z x) hi (Z.of_nat p) with
      | true, true => (here, Z.of_nat p)
      | true, false => (lo, Z.of_nat p)
      | false, true => (hi, Z.of_nat p)
      | false, false => shortest x p'
      end
  end.

Definition toString_exponential (x : Q) : string :=
  let n := String.length (decimal (Qfloor x)) in
  let (s, p) := shortest (Qfloor x) (n - 1) in
  let ds := decimal s in
  let e := decimal (Z.of_nat (String.length ds) + p - 1) in
  match strip_trailing_zeros ds with
  | String d EmptyString => String d ("e+" ++ e)
  | String d r => String d ("." ++ r ++ "e+" ++ e)
  | EmptyString => EmptyString
  end.

(** [Number.prototype.toFixed(f)] for [0 <= f <= 100].  A non-finite value
    prints as its name; a magnitude of [10^21] or more prints as Number::toString
    does; any other value, taken exactly as the binary64 value denotes it, is
    rounded to the nearest multiple of [10^-f], the larger one on a tie, and
    printed with exactly [f] fraction digits. *)
Definition toFixed (x : number) (f : nat) : string :=
  match x with
  | NaN => "NaN"
  | Infinity false => "Infinity"
  | Infinity true => "-Infinity"
  | Finite q =>
      let s := match Qsign q with Lt => "-" | _ => EmptyString end in
      let x := Qabs q in
      let m :=
        if Qle_bool (inject_Z (10 ^ 21)) x then toString_exponential x
        else
          let n := Qfloor (x * inject_Z (10 ^ Z.of_nat f) + (1 # 2)) in
          let m := decimal n in
          match f with
          | O => m
          | _ =>
              let k := String.length m in
              let m := if Nat.leb k f then zeros (f + 1 - k) ++ m else m in
              let k := String.length m in
              take (k - f) m ++ "." ++ drop (k - f) m
          end in
      s ++ m
  end.

(** ** Dates

    A Date holds a time value, milliseconds since the epoch, or is invalid. *)
Definition Date : Type := option Z.

Definition msPerDay : Z := 86400000.

Definition TimeClip (t : Z) : Date :=
  if Z.abs t <=? 8640000000000000 then Some t else None.

Definition getTime (d : Date) : number :=
  match d with Some t => of_Z t | None => NaN end.

(** The host: [Date.parse], whose accepted formats beyond the ISO one are the
    implementation's choice, and the local time zone adjustment. *)
Record Host : Type := {
  Date_parse : string -> Date;
  LocalTZA : Z -> bool -> Z
}.

Section Dates.
Variable host : Host.

(** [new Date(s)] for a string [s]. *)
Definition newDate (s : string) : Date :=
  match Date_parse host s with Some t => TimeClip t | None => None end.

(** [d.setHours(23, 59, 59, 999)]: the last millisecond of the local day
    that [d] falls in. *)
Definition setHours_endOfDay (d : Date) : Date :=
  match d with
  | None => None
  | Some tv =>
      let t := tv + LocalTZA host tv true in
      let date := (t / msPerDay) * msPerDay + 86399999 in
      TimeClip (date - LocalTZA host date false)
  end.
End Dates.

End JS.

(** * Data model ([lib/types.ts]) *)

Inductive Status : Type := pending | confirmed | failed.

Definition Status_toString (s : Status) : string :=
  match s with
  | pending => "pending"
  | confirmed => "confirmed"
  | failed => "failed"
  end.

Record Transaction : Type := mkTransaction {
  id : string;
  hash : string;
  fromAddress : string;
  toAddress : string;
  amount : string;
  status : Status;
  gasLimit : option string;
  gasPrice : option string;
  timestamp : string
}.

(** A string in a condition: the empty string is falsy, every other truthy. *)
Definition truthy (s : string) : bool := negb (JS.is_empty s).

(** * The transactions page ([app/transactions/page.tsx]) *)

Module SortField.
Inductive t : Type := date | amount | status.
End SortField.

Inductive SortOrder : Type := asc | desc.

(** The component's state: one field per [useState], and whether the
    debounce timeout set by the search effect is still pending. *)
Record State : Type := mkState {
  transactions : list Transaction;
  statusFilter : string;
  dateFrom : string;
  dateTo : string;
  searchQuery : string;
  debouncedSearch : string;
  sortField : SortField.t;
  sortOrder : SortOrder;
  currentPage : Z;
  timerPending : bool
}.

Definition setCurrentPage (p : Z) (st : State) : State :=
  mkState (transactions st) (statusFilter st) (dateFrom st) (dateTo st)
          (searchQuery st) (debouncedSearch st) (sortField st) (sortOrder st)
          p (timerPending st).

Section Page.
Variable host : JS.Host.
Variable itemsPerPage : Z.

(** ** The derivation of the visible rows *)

Definition byStatus (statusFilter : string) (result : list Transaction)
  : list Transaction :=
  if negb (String.eqb statusFilter "all")
  then filter (fun tx => String.eqb (Status_toString (status tx)) statusFilter)
              result
  else result.

Definition byDateFrom (dateFrom : string) (result : list Transaction)
  : list Transaction :=
  if truthy dateFrom then
    let fromDate := JS.newDate host dateFrom in
    filter (fun tx => JS.geb (JS.getTime (JS.newDate host (timestamp tx)))
                             (JS.getTime fromDate))
           result
  else result.

Definition byDateTo (dateTo : string) (result : list Transaction)
  : list Transaction :=
  if truthy dateTo then
    let toDate := JS.setHours_endOfDay host (JS.newDate host dateTo) in
    filter (fun tx => JS.leb (JS.getTime (JS.newDate host (timestamp tx)))
                             (JS.getTime toDate))
           result
  else result.

Definition matchesQuery (query : string) (tx : Transaction) : bool :=
  (JS.includes (JS.toLowerCase (hash tx)) query
   || JS.includes (JS.toLowerCase (fromAddress tx)) query
   || JS.includes (JS.toLowerCase (toAddress tx)) query)%bool.

Definition bySearch (debouncedSearch : string) (result : list Transaction)
  : list Transaction :=
  if truthy debouncedSearch then
    let query := JS.toLowerCase debouncedSearch in
    filter (matchesQuery query) result
  else result.

(** The comparator handed to [sort]. *)
Definition comparator (sortField : SortField.t) (sortOrder : SortOrder)
           (a b : Transaction) : JS.number :=
  let comparison :=
    match sortField with
    | SortField.date =>
        JS.sub (JS.getTime (JS.newDate host (timestamp a)))
               (JS.getTime (JS.newDate host (timestamp b)))
    | SortField.amount =>
        JS.sub (JS.parseFloat (amount a)) (JS.parseFloat (amount b))
    | SortField.status =>
        JS.localeCompare (Status_toString (status a))
                         (Status_toString (status b))
    end in
  match sortOrder with
  | asc => comparison
  | desc => JS.neg comparison
  end.

(** The rows left by the status and date filters. *)
Definition beforeSearch (st : State) : list Transaction :=
  byDateTo (dateTo st)
    (byDateFrom (dateFrom st)
      (byStatus (statusFilter st) (transactions st))).

(** The rows left by the four filters, before sorting. *)
Definition filtered (st : State) : list Transaction :=
  bySearch (debouncedSearch st) (beforeSearch st).

Definition filteredAndSortedTransactions (st : State) : list Transaction :=
  JS.sort (comparator (sortField st) (sortOrder st)) (filtered st).

Definition paginatedTransactions (st : State) : list Transaction :=
  let start := (currentPage st - 1) * itemsPerPage in
  let stop := start + itemsPerPage in
  JS.slice (filteredAndSortedTransactions st) start stop.

Definition totalPages (st : State) : Z :=
  JS.ceil_div (Z.of_nat (List.length (filteredAndSortedTransactions st)))
              itemsPerPage.

Definition showingFrom (st : State) : Z :=
  if Nat.eqb (List.length (filteredAndSortedTransactions st)) 0 then 0
  else (currentPage st - 1) * itemsPerPage + 1.

Definition showingTo (st : State) : Z :=
  Z.min (currentPage st * itemsPerPage)
        (Z.of_nat (List.length (filteredAndSortedTransactions st))).

(** ** Event handlers *)

Inductive Event : Type :=
| SearchInput (value : string)      (* the search box, and its clear button *)
| DebounceTimeout                   (* the 300 ms timer of the search effect *)
| SelectStatus (value : string)     (* the status select *)
| DateFromInput (value : string)
| DateToInput (value : string)
| ClearFilters
| HandleSort (field : SortField.t)
| Previous
| Next
| GoToPage (pageNum : Z)
| Loaded (data : list Transaction). (* [fetchTransactions] succeeded *)

Definition SortField_eqb (a b : SortField.t) : bool :=
  match a, b with
  | SortField.date, SortField.date
  | SortField.amount, SortField.amount
  | SortField.status, SortField.status => true
  | _, _ => false
  end.

(** [setSearchQuery]: a value different from the current one re-runs the
    search effect, which re-arms the timer. *)
Definition setSearchQuery (v : string) (st : State) : State :=
  if String.eqb v (searchQuery st) then st
  else mkState (transactions st) (statusFilter st) (dateFrom st) (dateTo st)
               v (debouncedSearch st) (sortField st) (sortOrder st)
               (currentPage st) true.

Definition debounceTimeout (st : State) : State :=
  if timerPending st then
    mkState (transactions st) (statusFilter st) (dateFrom st) (dateTo st)
            (searchQuery st) (searchQuery st) (sortField st) (sortOrder st)
            1 false
  else st.

Definition setStatusFilter (v : string) (st : State) : State :=
  mkState (transactions st) v (dateFrom st) (dateTo st)
          (searchQuery st) (debouncedSearch st) (sortField st) (sortOrder st)
          (currentPage st) (timerPending st).

Definition setDateFrom (v : string) (st : State) : State :=
  mkState (transactions st) (statusFilter st) v (dateTo st)
          (searchQuery st) (debouncedSearch st) (sortField st) (sortOrder st)
          (currentPage st) (timerPending st).

Definition setDateTo (v : string) (st : State) : State :=
  mkState (transactions st) (statusFilter st) (dateFrom st) v
          (searchQuery st) (debouncedSearch st) (sortField st) (sortOrder st)
          (currentPage st) (timerPending st).

Definition clearFilters (st : State) : State :=
  setCurrentPage 1
    (setSearchQuery EmptyString
      (setDateTo EmptyString
        (setDateFrom EmptyString
          (setStatusFilter "all" st)))).

Definition handleSort (field : SortField.t) (st : State) : State :=
  let st' :=
    if SortField_eqb (sortField st) field then
      mkState (transactions st) (statusFilter st) (dateFrom st) (dateTo st)
              (searchQuery st) (debouncedSearch st) (sortField st)
              (match sortOrder st with asc => desc | desc => asc end)
              (currentPage st) (timerPending st)
    else
      mkState (transactions st) (statusFilter st) (dateFrom st) (dateTo st)
              (searchQuery st) (debouncedSearch st) field desc
              (currentPage st) (timerPending st) in
  setCurrentPage 1 st'.

Definition setTransactions (data : list Transaction) (st : State) : State :=
  mkState data (statusFilter st) (dateFrom st) (dateTo st)
          (searchQuery st) (debouncedSearch st) (sortField st) (sortOrder st)
          (currentPage st) (timerPending st).

(** One event of the page.  The Previous and Next buttons do nothing while
    they are disabled. *)
Definition step (st : State) (e : Event) : State :=
  match e with
  | SearchInput v => setSearchQuery v st
  | DebounceTimeout => debounceTimeout st
  | SelectStatus v => setStatusFilter v st
  | DateFromInput v => setDateFrom v st
  | DateToInput v => setDateTo v st
  | ClearFilters => clearFilters st
  | HandleSort field => handleSort field st
  | Previous =>
      if currentPage st =? 1 then st
      else setCurrentPage (currentPage st - 1) st
  | Next =>
      if currentPage st =? totalPages st then st
      else setCurrentPage (currentPage st + 1) st
  | GoToPage pageNum => setCurrentPage pageNum st
  | Loaded data => setTransactions data st
  end.

(** The page as first rendered. *)
Definition initialState : State :=
  mkState [] "all" EmptyString EmptyString EmptyString EmptyString
          SortField.date desc 1 true.
End Page.

(** * A reference host

    [Date.parse] accepting exactly the ISO forms [YYYY-MM-DD] and
    [YYYY-MM-DDTHH:mm:ss(.sss)Z], in the UTC time zone.  The statements below
    hold for every host; this one evaluates the examples. *)

Module IsoHost.

Fixpoint read_digits (n : nat) (acc : Z) (s : string) : option (Z * string) :=
  match n with
  | O => Some (acc, s)
  | S n' =>
      match s with
      | String c s' =>
          if JS.is_digit c
          then read_digits n' (10 * acc + JS.digit_value c) s'
          else None
      | EmptyString => None
      end
  end.

Definition expect (c : ascii) (s : string) : option string :=
  match s with
  | String d s' => if Ascii.eqb c d then Some s' else None
  | EmptyString => None
  end.

Definition is_leap (y : Z) : bool :=
  ((y mod 4 =? 0) && negb (y mod 100 =? 0) || (y mod 400 =? 0))%bool.

Definition days_in_month (y m : Z) : Z :=
  if m =? 2 then (if is_leap y then 29 else 28)
  else if (m =? 4) || (m =? 6) || (m =? 9) || (m =? 11) then 30
  else 31.

(** Days from the epoch to the civil date [y-m-d]. *)
Definition days_from_civil (y m d : Z) : Z :=
  let y' := if m <=? 2 then y - 1 else y in
  let era := y' / 400 in
  let yoe := y' - era * 400 in
  let doy := (153 * (if 2 <? m then m - 3 else m + 9) + 2) / 5 + d - 1 in
  let doe := yoe * 365 + yoe / 4 - yoe / 100 + doy in
  era * 146097 + doe - 719468.

Definition bind {A B : Type} (o : option A) (f : A -> option B) : option B :=
  match o with Some a => f a | None => None end.

Local Notation "x <- o ;; k" := (bind o (fun x => k))
  (at level 61, o at next level, right associativity).
Local Notation "' p <- o ;; k" := (bind o (fun xx => let 'p := xx in k))
  (at level 61, p pattern, o at next level, right associativity).

Definition guard (b : bool) : option unit := if b then Some tt else None.

Definition parse_time (s : string) : option Z :=
  s <- expect "T" s ;;
  '(hh, s) <- read_digits 2 0 s ;;
  s <- expect ":" s ;;
  '(mm, s) <- read_digits 2 0 s ;;
  s <- expect ":" s ;;
  '(ss, s) <- read_digits 2 0 s ;;
  '(ms, s) <-
    match expect "." s with
    | Some s' => read_digits 3 0 s'
    | None => Some (0, s)
    end ;;
  s <- expect "Z" s ;;
  _ <- guard (JS.is_empty s && (hh <=? 23) && (mm <=? 59) && (ss <=? 59)) ;;
  Some (((hh * 60 + mm) * 60 + ss) * 1000 + ms).

Definition parse (s : string) : JS.Date :=
  '(y, s) <- read_digits 4 0 s ;;
  s <- expect "-" s ;;
  '(m, s) <- read_digits 2 0 s ;;
  s <- expect "-" s ;;
  '(d, s) <- read_digits 2 0 s ;;
  _ <- guard ((1 <=? m) && (m <=? 12) && (1 <=? d) && (d <=? days_in_month y m)) ;;
  t <- (if JS.is_empty s then Some 0 else parse_time s) ;;
  Some (days_from_civil y m d * JS.msPerDay + t).

Definition host : JS.Host :=
  {| JS.Date_parse := parse; JS.LocalTZA := fun _ _ => 0 |}.

End IsoHost.

(** * CSV export ([lib/csv.ts]) *)

Module Csv.

Definition DQUOTE : ascii := "034"%char.
Definition LF : ascii := "010"%char.

Definition str (c : ascii) : string := String c EmptyString.

(** [escapeCsv].  Its argument is always the result of [String(v)], so the
    [value == null] branch is never taken. *)
Definition escapeCsv (value : string) : string :=
  let needsQuotes := JS.test_class [DQUOTE; ","%char; LF] value in
  let escaped := JS.replaceAll DQUOTE (str DQUOTE ++ str DQUOTE) value in
  if needsQuotes then str DQUOTE ++ escaped ++ str DQUOTE else escaped.

Definition headers : list string :=
  ["id"; "hash"; "fromAddress"; "toAddress"; "amount"; "status";
   "gasLimit"; "gasPrice"; "timestamp"].

(** [v ?? ''] *)
Definition orEmpty (v : option string) : string :=
  match v with Some s => s | None => EmptyString end.

Definition vals (r : Transaction) : list string :=
  map escapeCsv
      [id r; hash r; fromAddress r; toAddress r; amount r;
       Status_toString (status r); orEmpty (gasLimit r);
       orEmpty (gasPrice r); timestamp r].

(** The loop pushes one joined line per row onto [lines]. *)
Definition transactionsToCsv (rows : list Transaction) : string :=
  let lines := [JS.join "," headers] in
  let lines :=
    fold_left (fun lines r => (lines ++ [JS.join "," (vals r)])%list)
              rows lines in
  JS.join (str LF) lines.

(** The escaping rule as the specification words it: a value holding a
    comma, a double quote or a newline is wrapped in double quotes, with
    each double quote inside it doubled; any other value is left as is. *)
Fixpoint contains (c : ascii) (s : string) : bool :=
  match s with
  | String d s' => (Ascii.eqb d c || contains c s')%bool
  | EmptyString => false
  end.

Fixpoint doubled (s : string) : string :=
  match s with
  | String d s' =>
      if Ascii.eqb d DQUOTE then String DQUOTE (String DQUOTE (doubled s'))
      else String d (doubled s')
  | EmptyString => EmptyString
  end.

Definition spec_field (value : string) : string :=
  if (contains ","%char value || contains DQUOTE value || contains LF value)%bool
  then str DQUOTE ++ doubled value ++ str DQUOTE
  else value.

Definition spec_row (r : Transaction) : string :=
  JS.join ","
    [spec_field (id r); spec_field (hash r); spec_field (fromAddress r);
     spec_field (toAddress r); spec_field (amount r);
     spec_field (Status_toString (status r));
     match gasLimit r with Some v => spec_field v | None => EmptyString end;
     match gasPrice r with Some v => spec_field v | None => EmptyString end;
     spec_field (timestamp r)].

Definition spec_header : string :=
  "id,hash,fromAddress,toAddress,amount,status,gasLimit,gasPrice,timestamp".

End Csv.

(** * Theme storage ([lib/theme.ts]) *)

Module Theme.
Import stdpp.gmap stdpp.strings.

Definition THEME_KEY : string := "theme".

Inductive Theme : Type := light | dark.

Definition Theme_toString (t : Theme) : string :=
  match t with light => "light" | dark => "dark" end.

(** What the functions see of their environment: whether the globals
    [window] and [document] are defined (they are not while rendering on the
    server), the contents of [localStorage], and the class list of the
    document's root element. *)
Record Env : Type := mkEnv {
  window_defined : bool;
  document_defined : bool;
  localStorage : gmap string string;
  classList : gset string
}.

Definition getStoredTheme (env : Env) : option Theme :=
  if negb (window_defined env) then None
  else
    let v := localStorage env !! THEME_KEY in
    match v with
    | Some s =>
        if String.eqb s "dark" then Some dark
        else if String.eqb s "light" then Some light
        else None
    | None => None
    end.

Definition applyTheme (theme : Theme) (env : Env) : Env :=
  if negb (document_defined env) then env
  else
    let classes :=
      match theme with
      | dark => classList env ∪ {["dark"]}
      | light => classList env ∖ {["dark"]}
      end in
    mkEnv (window_defined env) (document_defined env)
          (<[THEME_KEY := Theme_toString theme]> (localStorage env))
          classes.

Definition initTheme (env : Env) : Env :=
  if negb (window_defined env) then env
  else
    match getStoredTheme env with
    | Some stored => applyTheme stored env
    | None => env
    end.

(** A browser with nothing stored, and the server, where neither global
    exists. *)
Definition browser : Env := mkEnv true true ∅ ∅.
Definition server : Env := mkEnv false false ∅ ∅.

End Theme.

(** * Transaction details ([components/TransactionDetails.tsx]) *)

Module Details.

(** [!v] for an optional string: true when it is undefined or empty. *)
Definition not_ (v : option string) : bool :=
  match v with Some s => JS.is_empty s | None => true end.

(** [parseFloat(v)] for an optional string; [undefined] parses to NaN. *)
Definition parseFloat (v : option string) : JS.number :=
  match v with Some s => JS.parseFloat s | None => JS.NaN end.

(** The product the fee is computed from. *)
Definition fee (transaction : Transaction) : JS.number :=
  JS.mul (parseFloat (gasLimit transaction))
         (parseFloat (gasPrice transaction)).

Definition calculateFee (transaction : Transaction) : string :=
  if (not_ (gasLimit transaction) || not_ (gasPrice transaction))%bool
  then "N/A"
  else
    let fee := fee transaction in
    if JS.isNaN fee then "N/A" else JS.toFixed fee 8.

End Details.

(** * The specification's wording of the rules the code is compared with *)

Module Spec.

(** The amount sort key as the specification has it: the parsed amount, and
    zero when the amount does not parse. *)
Definition amountKey (tx : Transaction) : JS.number :=
  let v := JS.parseFloat (amount tx) in
  if JS.isNaN v then JS.of_Z 0 else v.

Definition amountComparator (order : SortOrder) (a b : Transaction)
  : JS.number :=
  let comparison := JS.sub (amountKey a) (amountKey b) in
  match order with
  | asc => comparison
  | desc => JS.neg comparison
  end.

(** "Empty after trimming". *)
Definition emptyAfterTrim (searchQuery : string) : bool :=
  JS.is_empty (JS.trim searchQuery).

(** The number of characters after the decimal point of a rendered number,
    if it has a point. *)
Fixpoint decimalPlaces (s : string) : option nat :=
  match s with
  | String c s' =>
      if Ascii.eqb c "."%char then Some (String.length s')
      else decimalPlaces s'
  | EmptyString => None
  end.

End Spec.

(** Equality of transactions, field by field. *)
Definition Status_eqb (a b : Status) : bool :=
  match a, b with
  | pending, pending | confirmed, confirmed | failed, failed => true
  | _, _ => false
  end.

Definition option_string_eqb (a b : option string) : bool :=
  match a, b with
  | Some x, Some y => String.eqb x y
  | None, None => true
  | _, _ => false
  end.

Definition Transaction_eqb (a b : Transaction) : bool :=
  (String.eqb (id a) (id b) && String.eqb (hash a) (hash b)
   && String.eqb (fromAddress a) (fromAddress b)
   && String.eqb (toAddress a) (toAddress b)
   && String.eqb (amount a) (amount b) && Status_eqb (status a) (status b)
   && option_string_eqb (gasLimit a) (gasLimit b)
   && option_string_eqb (gasPrice a) (gasPrice b)
   && String.eqb (timestamp a) (timestamp b))%bool.

(** * Sample data *)

Module Sample.

Definition host : JS.Host := IsoHost.host.

Definition tx (i : string) (amt : string) (s : Status) : Transaction :=
  mkTransaction i ("0xabc" ++ i) "0xfrom" "0xto" amt s None None
                "2024-01-15T10:00:00Z".

(** Sixteen confirmed transactions, numbered 1 to 16. *)
Definition sixteen : list Transaction :=
  map (fun i => tx (JS.decimal (Z.of_nat i)) "1.0" confirmed) (seq 1 16).

(** The page as first rendered, with [rows] loaded and page [p] selected. *)
Definition showing (rows : list Transaction) (p : Z) : State :=
  mkState rows "all" EmptyString EmptyString EmptyString EmptyString
          SortField.date desc p false.

Definition sortedBy (rows : list Transaction) (f : SortField.t)
           (o : SortOrder) : State :=
  mkState rows "all" EmptyString EmptyString EmptyString EmptyString
          f o 1 false.

Definition searching (rows : list Transaction) (q : string) : State :=
  mkState rows "all" EmptyString EmptyString q q SortField.date desc 1 false.

(** Three rows, the first and the last with the same amount. *)
Definition first2 : Transaction := tx "1" "2.0" confirmed.
Definition middle1 : Transaction := tx "2" "1.0" pending.
Definition last2 : Transaction := tx "3" "2.0" failed.
Definition three : list Transaction := [first2; middle1; last2].

(** The two rows of the specification's scenario. *)
Definition scenario : list Transaction :=
  [tx "1" "1.5" confirmed; tx "2" "0.2" pending].

(** A row with a numeric amount and rows whose amount is not a number. *)
Definition five : Transaction := tx "1" "5" confirmed.
Definition bad : Transaction := tx "2" "abc" confirmed.
Definition minus3 : Transaction := tx "3" "-3" confirmed.
Definition unknown : Transaction := tx "4" "n/a" pending.

(** Sixteen confirmed rows followed by one pending row. *)
Definition waiting : Transaction := tx "17" "3.0" pending.
Definition mixed : list Transaction := (sixteen ++ [waiting])%list.

(** A row with a gas limit and a gas price. *)
Definition withGas (limit price : string) : Transaction :=
  mkTransaction "6" "0xabc6" "0xfrom" "0xto" "1.0" confirmed
                (Some limit) (Some price) "2024-01-15T10:00:00Z".

(** A row whose timestamp is not a date. *)
Definition dateless : Transaction :=
  mkTransaction "5" "0xabc5" "0xfrom" "0xto" "1.0" pending None None
                "yesterday".

(** Rows of different dates, out of order, around the dateless one. *)
Definition dated (i ts : string) : Transaction :=
  mkTransaction i ("0xabc" ++ i) "0xfrom" "0xto" "1.0" confirmed None None ts.
Definition january : Transaction := dated "1" "2024-01-15T10:00:00Z".
Definition march : Transaction := dated "2" "2024-03-01T08:30:00Z".
Definition february : Transaction := dated "3" "2024-02-10T12:00:00Z".
Definition calendar : list Transaction :=
  [january; dateless; march; february].

(** The rows of [calendar] from the first of January 2024 on, by date,
    latest first. *)
Definition since2024 : State :=
  mkState calendar "all" "2024-01-01" EmptyString EmptyString EmptyString
          SortField.date desc 1 false.

(** Seven rows: three whose amount is not a number among one of amount 2
    and three of amount 1. *)
Definition fourth : Transaction := tx "4" "1" confirmed.
Definition sixth : Transaction := tx "6" "1" confirmed.
Definition seventh : Transaction := tx "7" "1" confirmed.
Definition seven : list Transaction :=
  [tx "1" "abc" confirmed; tx "2" "abc" confirmed; tx "3" "2" confirmed;
   fourth; tx "5" "abc" confirmed; sixth; seventh].

End Sample.

(** * Auxiliary notions used in the statements *)

(** The order a sort by amount establishes between parseable amounts. *)
Definition amountOrdered (o : SortOrder) (a b : Transaction) : Prop :=
  match o with
  | asc => JS.leb (JS.parseFloat (amount a)) (JS.parseFloat (amount b)) = true
  | desc => JS.geb (JS.parseFloat (amount a)) (JS.parseFloat (amount b)) = true
  end.

Definition amountParses (tx : Transaction) : Prop :=
  JS.isNaN (JS.parseFloat (amount tx)) = false.

(** A comparator that subtracts the keys of its arguments, negated for a
    descending sort, as the page's comparator does with times and amounts;
    and the order of the keys that it aims at. *)
Definition byKey {A : Type} (key : A -> JS.number) (o : SortOrder) (a b : A)
  : JS.number :=
  match o with
  | asc => JS.sub (key a) (key b)
  | desc => JS.neg (JS.sub (key a) (key b))
  end.

Definition keyOrdered {A : Type} (key : A -> JS.number) (o : SortOrder)
    (a b : A) : Prop :=
  match o with
  | asc => JS.leb (key a) (key b) = true
  | desc => JS.geb (key a) (key b) = true
  end.

(** The key that a sort by [f] reads off a row is a number: the timestamp is
    a date, the amount parses.  A status always compares. *)
Definition sortKeyValid (host : JS.Host) (f : SortField.t) (tx : Transaction)
  : Prop :=
  match f with
  | SortField.date =>
      JS.isNaN (JS.getTime (JS.newDate host (timestamp tx))) = false
  | SortField.amount => JS.isNaN (JS.parseFloat (amount tx)) = false
  | SortField.status => True
  end.

(** The characters other than [c]. *)
Definition other_than (c : ascii) : ascii -> bool :=
  fun d => negb (Ascii.eqb d c).

(** The digits [toFixed] splits around the decimal point. *)
Definition padded (n : Z) (f : nat) : string :=
  let m := JS.decimal n in
  if Nat.leb (String.length m) f
  then JS.zeros (f + 1 - String.length m) ++ m
  else m.

(** * More of the transactions page ([app/transactions/page.tsx]) *)

Section Pager.
Variable host : JS.Host.
Variable itemsPerPage : Z.

(** The number on the [i]-th page button, a window of at most five pages
    around the current one. *)
Definition pageNum (totalPages currentPage i : Z) : Z :=
  if totalPages <=? 5 then i + 1
  else if currentPage <=? 3 then i + 1
  else if currentPage >=? totalPages - 2 then totalPages - 4 + i
  else currentPage - 2 + i.

(** [[...Array(Math.min(totalPages, 5))].map((_, i) => ...)] *)
Definition pageButtons (st : State) : list Z :=
  let total := totalPages host itemsPerPage st in
  map (fun i => pageNum total (currentPage st) (Z.of_nat i))
      (seq 0 (Z.to_nat (Z.min total 5))).

(** The table, with its sort headers, and the pager are rendered only when
    some row is left. *)
Definition tableShown (st : State) : bool :=
  negb (Nat.eqb (List.length (filteredAndSortedTransactions host st)) 0).

(** The events the rendered page can produce: a button that is not rendered
    or is disabled cannot be clicked, and the timer fires only while armed. *)
Definition enabled (st : State) (e : Event) : bool :=
  match e with
  | SearchInput _ | SelectStatus _ | DateFromInput _ | DateToInput _
  | ClearFilters | Loaded _ => true
  | DebounceTimeout => timerPending st
  | HandleSort _ => tableShown st
  | Previous => tableShown st && negb (currentPage st =? 1)
  | Next =>
      tableShown st
      && negb (currentPage st =? totalPages host itemsPerPage st)
  | GoToPage p => tableShown st && existsb (Z.eqb p) (pageButtons st)
  end.

(** The states the page can be in. *)
Inductive reachable : State -> Prop :=
| reachable_initial : reachable initialState
| reachable_step (st : State) (e : Event) :
    reachable st -> enabled st e = true ->
    reachable (step host itemsPerPage st e).

(** The test a row passes to be listed: every active filter accepts it. *)
Definition passes (st : State) (tx : Transaction) : bool :=
  ((String.eqb (statusFilter st) "all"
    || String.eqb (Status_toString (status tx)) (statusFilter st))
   && (negb (truthy (dateFrom st))
       || JS.geb (JS.getTime (JS.newDate host (timestamp tx)))
                 (JS.getTime (JS.newDate host (dateFrom st))))
   && (negb (truthy (dateTo st))
       || JS.leb (JS.getTime (JS.newDate host (timestamp tx)))
                 (JS.getTime (JS.setHours_endOfDay
                                host (JS.newDate host (dateTo st)))))
   && (negb (truthy (debouncedSearch st))
       || matchesQuery (JS.toLowerCase (debouncedSearch st)) tx))%bool.

(** The time a row is sorted by. *)
Definition timeOf (tx : Transaction) : JS.number :=
  JS.getTime (JS.newDate host (timestamp tx)).
End Pager.

(** The order a sort by date establishes between rows with valid dates. *)
Definition dateOrdered (host : JS.Host) (o : SortOrder) (a b : Transaction)
  : Prop :=
  match o with
  | asc => JS.leb (timeOf host a) (timeOf host b) = true
  | desc => JS.geb (timeOf host a) (timeOf host b) = true
  end.

(** The alphabetical rank of a status. *)
Definition statusRank (s : Status) : Z :=
  match s with
  | confirmed => 0
  | failed => 1
  | pending => 2
  end.

Definition statusOrdered (o : SortOrder) (a b : Transaction) : Prop :=
  match o with
  | asc => statusRank (status a) <= statusRank (status b)
  | desc => statusRank (status b) <= statusRank (status a)
  end.

(** * The creation form ([components/CreateTransactionForm.tsx]) *)

Module Form.

(** The watched field values; the gas fields are optional. *)
Record Values : Type := mkValues {
  v_toAddress : string;
  v_amount : string;
  v_gasLimit : option string;
  v_gasPrice : option string
}.

(** [v || d] for an optional string. *)
Definition orElse (v : option string) (d : string) : string :=
  match v with
  | Some s => if JS.is_empty s then d else s
  | None => d
  end.

(** The fee preview. *)
Definition calculateFee (watchedValues : Values) : string :=
  let gasLimit := JS.parseFloat (orElse (v_gasLimit watchedValues) "0") in
  let gasPrice := JS.parseFloat (orElse (v_gasPrice watchedValues) "0") in
  if (JS.isNaN gasLimit || JS.isNaN gasPrice)%bool then "0.00000000"
  else
    let fee := JS.mul gasLimit gasPrice in
    JS.toFixed fee 8.

(** The body [onSubmit] sends to [transactionsAPI.create]. *)
Record Payload : Type := mkPayload {
  p_toAddress : string;
  p_amount : string;
  p_gasLimit : string;
  p_gasPrice : string
}.

Definition payload (data : Values) : Payload :=
  mkPayload (v_toAddress data) (v_amount data)
            (orElse (v_gasLimit data) "21000")
            (orElse (v_gasPrice data) "0.00000002").

Definition is_hex (c : ascii) : bool :=
  let n := nat_of_ascii c in
  (JS.is_digit c
   || (Nat.leb 97 n && Nat.leb n 102)
   || (Nat.leb 65 n && Nat.leb n 70))%bool.

(** [/^0x[a-fA-F0-9]{40}$/.test(s)] *)
Definition matchesAddress (s : string) : bool :=
  match s with
  | String c0 (String c1 body) =>
      (Ascii.eqb c0 "0" && Ascii.eqb c1 "x"
       && Nat.eqb (String.length body) 40 && JS.every is_hex body)%bool
  | _ => false
  end.

(** [x > 0] on Numbers. *)
Definition positive (x : JS.number) : bool :=
  match x with
  | JS.NaN => false
  | JS.Infinity s => negb s
  | JS.Finite q => match JS.Qsign q with Gt => true | _ => false end
  end.

(** The schema's checks of [toAddress] and [amount]: the "required" check
    and the format check of each. *)
Definition toAddressValid (s : string) : bool :=
  (Nat.leb 1 (String.length s) && matchesAddress s)%bool.

Definition amountValid (val : string) : bool :=
  (Nat.leb 1 (String.length val)
   && (negb (JS.isNaN (JS.parseFloat val)) && positive (JS.parseFloat val)))%bool.

(** The form values that hold the gas fields of a transaction. *)
Definition valuesOf (tx : Transaction) : Values :=
  mkValues (toAddress tx) (amount tx) (gasLimit tx) (gasPrice tx).

End Form.

(** * The navigation bar's theme switch ([components/Nav.tsx]) *)

Module Nav.

(** The [theme] state of the component and the environment it acts on. *)
Record State : Type := mkState {
  theme : Theme.Theme;
  env : Theme.Env
}.

(** The component as first rendered. *)
Definition initial (e : Theme.Env) : State := mkState Theme.light e.

(** The mount effect: [initTheme()], then the stored theme, if any, becomes
    the state. *)
Definition mount (s : State) : State :=
  let e := Theme.initTheme (env s) in
  match Theme.getStoredTheme e with
  | Some stored => mkState stored e
  | None => mkState (theme s) e
  end.

Definition toggleTheme (s : State) : State :=
  let next :=
    match theme s with
    | Theme.dark => Theme.light
    | Theme.light => Theme.dark
    end in
  mkState next (Theme.applyTheme next (env s)).

End Nav.

(** * Counting characters *)

Fixpoint count (c : ascii) (s : string) : nat :=
  match s with
  | String d s' => ((if Ascii.eqb d c then 1 else 0) + count c s')%nat
  | EmptyString => 0%nat
  end.

(** The values of a row's nine columns, before escaping. *)
Definition rawFields (r : Transaction) : list string :=
  [id r; hash r; fromAddress r; toAddress r; amount r;
   Status_toString (status r); Csv.orEmpty (gasLimit r);
   Csv.orEmpty (gasPrice r); timestamp r].

Definition countIn (c : ascii) (fields : list string) : nat :=
  fold_right (fun v n => (count c v + n)%nat) 0%nat fields.

Definition countInRows (c : ascii) (rows : list Transaction) : nat :=
  fold_right (fun r n => (countIn c (rawFields r) + n)%nat) 0%nat rows.

(** * Facts about the built-ins *)

Section RoundingFacts.
Import JS.

Lemma Qsign_opp (q : Q) : Qsign (- q) = CompOpp (Qsign q).
Proof.
  unfold Qsign, Qcompare. destruct q as [n d]; simpl.
  rewrite !Z.mul_1_r. now destruct n.
Qed.

Lemma round_half_even_ge (N D : Z) :
  (0 < D -> D <= N -> 1 <= round_half_even N D)%Z.
Proof.
  intros HD HN. unfold round_half_even.
  assert (H : (1 <= N / D)%Z) by (apply Z.div_le_lower_bound; lia).
  destruct (Z.compare _ _); [destruct (Z.even _)| |]; lia.
Qed.

Lemma floor_log2_le (n d : Z) :
  (floor_log2 n d <= Z.log2 n - Z.log2 d)%Z.
Proof. unfold floor_log2. destruct (_ <? _)%Z; lia. Qed.

(** The scaled numerator is at least the scaled denominator when the scale
    [t] lies 52 or more below the binary exponent. *)
Lemma scaled_ge (n d t : Z) :
  (0 < n -> 0 < d -> t <= Z.log2 n - Z.log2 d - 52 ->
   d * 2 ^ Z.max 0 t <= n * 2 ^ Z.max 0 (- t))%Z.
Proof.
  intros Hn Hd Ht.
  pose proof (Z.log2_spec n Hn) as [Hn1 _].
  pose proof (Z.log2_spec d Hd) as [_ Hd2].
  pose proof (Z.log2_nonneg n) as Ha. pose proof (Z.log2_nonneg d) as Hb.
  destruct (Z.le_gt_cases 0 t) as [H0|H0].
  - rewrite (Z.max_r 0 t), (Z.max_l 0 (- t)) by lia.
    rewrite Z.pow_0_r, Z.mul_1_r.
    assert (Hpow : (2 ^ Z.succ (Z.log2 d) * 2 ^ t <= 2 ^ Z.log2 n)%Z).
    { rewrite <- Z.pow_add_r by lia. apply Z.pow_le_mono_r; lia. }
    assert (Hpos : (0 < 2 ^ t)%Z) by (apply Z.pow_pos_nonneg; lia).
    nia.
  - rewrite (Z.max_l 0 t), (Z.max_r 0 (- t)) by lia.
    rewrite Z.pow_0_r, Z.mul_1_r.
    assert (Hpow : (2 ^ Z.succ (Z.log2 d) <= 2 ^ Z.log2 n * 2 ^ (- t))%Z).
    { rewrite <- Z.pow_add_r by lia. apply Z.pow_le_mono_r; lia. }
    assert (Hpos : (0 < 2 ^ (- t))%Z) by (apply Z.pow_pos_nonneg; lia).
    nia.
Qed.

Lemma grid_numerator (q : Q) :
  grid q -> Qnum q <> 0%Z ->
  (Zpos (Qden q) <= Z.abs (Qnum q) * 2 ^ 1074)%Z.
Proof.
  intros [k Hk] Hn. unfold Qeq in Hk. cbn [Qnum Qden Qmult inject_Z] in Hk.
  rewrite !Z.mul_1_r in Hk. rewrite Pos.mul_1_r in Hk.
  assert (Hk0 : k <> 0%Z).
  { intros ->. assert (0 < 2 ^ 1074)%Z by (apply Z.pow_pos_nonneg; lia). nia. }
  assert (Habs : (Z.abs (Qnum q) * 2 ^ 1074 = Z.abs k * Zpos (Qden q))%Z).
  { rewrite <- (Z.abs_eq (2 ^ 1074)) at 1
      by (apply Z.pow_nonneg; lia).
    rewrite <- Z.abs_mul, Hk, Z.abs_mul. reflexivity. }
  rewrite Habs. nia.
Qed.

Lemma Qsign_num (q : Q) : Qsign q = (Qnum q ?= 0)%Z.
Proof. unfold Qsign, Qcompare. simpl. now rewrite Z.mul_1_r. Qed.

(** Rounding a multiple of [2^-1074] keeps its sign: nothing but zero rounds
    to zero. *)
Lemma sign_round64 (q : Q) : grid q -> sign (round64 q) = Qsign q.
Proof.
  intros Hg. rewrite Qsign_num. unfold round64.
  destruct (Z.eqb_spec (Z.abs (Qnum q)) 0) as [H0|H0].
  - assert (Qnum q = 0%Z) as -> by lia. reflexivity.
  - assert (Hsign : (if (Qnum q <? 0)%Z then Lt else Gt) = (Qnum q ?= 0)%Z).
    { destruct (Z.ltb_spec (Qnum q) 0) as [H|H]; symmetry;
        [apply Z.compare_lt_iff|apply Z.compare_gt_iff]; lia. }
    set (n := Z.abs (Qnum q)) in *. set (d := Zpos (Qden q)).
    set (e := Z.max (floor_log2 n d) (-1022)).
    destruct (1024 <=? e)%Z; [exact Hsign|].
    set (m := round_half_even _ _).
    destruct ((e =? 1023)%Z && (2 ^ 53 <=? m)%Z)%bool; [exact Hsign|].
    assert (Hm : (1 <= m)%Z).
    { apply round_half_even_ge.
      - assert (0 < 2 ^ Z.max 0 (e - 52))%Z by (apply Z.pow_pos_nonneg; lia).
        unfold d. lia.
      - destruct (Z.max_spec (floor_log2 n d) (-1022)) as [[Hlt He]|[Hge He]];
          fold e in He.
        + rewrite He. change (Z.max 0 (-1022 - 52)) with 0%Z.
          change (Z.max 0 (- (-1022 - 52))) with 1074%Z.
          rewrite Z.pow_0_r, Z.mul_1_r. unfold d, n.
          apply grid_numerator; [exact Hg|]. unfold n in H0. lia.
        + apply scaled_ge; [unfold n in *; lia|unfold d; lia|].
          rewrite He. pose proof (floor_log2_le n d). lia. }
    rewrite <- Hsign. cbn [sign].
    assert (Hv : Qsign (if (0 <=? e - 52)%Z
                        then inject_Z (m * 2 ^ (e - 52))
                        else Qmake m (Z.to_pos (2 ^ (- (e - 52))))) = Gt).
    { rewrite Qsign_num.
      destruct (0 <=? e - 52)%Z eqn:Et; cbn [Qnum inject_Z];
        apply Z.compare_gt_iff; [|lia].
      apply Z.leb_le in Et.
      assert (0 < 2 ^ (e - 52))%Z by (apply Z.pow_pos_nonneg; lia). nia. }
    destruct (Qnum q <? 0)%Z; [|exact Hv].
    rewrite Qsign_opp, Hv. reflexivity.
Qed.

Lemma grid_inject_Z (z : Z) : grid (inject_Z z).
Proof.
  exists (z * 2 ^ 1074)%Z. now rewrite inject_Z_mult.
Qed.

Lemma grid_opp (q : Q) : grid q -> grid (Qopp q).
Proof.
  intros [k Hk]. exists (- k)%Z.
  rewrite inject_Z_opp, <- Hk. ring.
Qed.

Lemma grid_minus (p q : Q) : grid p -> grid q -> grid (Qminus p q).
Proof.
  intros [k Hk] [j Hj]. exists (k + - j)%Z.
  rewrite inject_Z_plus, inject_Z_opp, <- Hk, <- Hj. ring.
Qed.

Lemma onGrid_round64 (q : Q) : onGrid (round64 q).
Proof.
  unfold round64.
  destruct (_ =? 0)%Z; [exact (grid_inject_Z 0)|].
  set (e := Z.max _ (-1022)).
  destruct (1024 <=? e)%Z; [exact I|].
  set (m := round_half_even _ _).
  destruct (_ && _)%bool; [exact I|].
  assert (Hv : grid (if (0 <=? e - 52)%Z
                     then inject_Z (m * 2 ^ (e - 52))
                     else Qmake m (Z.to_pos (2 ^ (- (e - 52)))))).
  { destruct (0 <=? e - 52)%Z eqn:Et; [apply grid_inject_Z|].
    apply Z.leb_gt in Et.
    assert (He : (-1022 <= e)%Z) by (unfold e; lia).
    exists (m * 2 ^ (1074 + (e - 52)))%Z.
    unfold Qeq. cbn [Qnum Qden Qmult inject_Z].
    rewrite Z.mul_1_r, Pos.mul_1_r, Z2Pos.id by (apply Z.pow_pos_nonneg; lia).
    rewrite <- Z.mul_assoc, <- Z.pow_add_r by lia.
    f_equal. f_equal. lia. }
  cbn [onGrid]. destruct (Qnum q <? 0)%Z; [now apply grid_opp|exact Hv].
Qed.

Lemma onGrid_neg (x : number) : onGrid x -> onGrid (neg x).
Proof. destruct x; simpl; auto using grid_opp. Qed.

Lemma onGrid_unsigned_literal (s : string) : onGrid (unsigned_literal s).
Proof.
  unfold unsigned_literal.
  repeat match goal with
         | |- onGrid (if ?c then _ else _) => destruct c
         | |- onGrid (let (_, _) := ?p in _) => destruct p
         | |- onGrid (let '(_, _) := ?p in _) => destruct p
         | |- onGrid (match ?p with _ => _ end) => destruct p
         end;
    try exact I; apply onGrid_round64.
Qed.

(** What [parseFloat] returns and what a Date holds are binary64 values. *)
Lemma onGrid_parseFloat (s : string) : onGrid (parseFloat s).
Proof.
  unfold parseFloat. destruct (trimStart s) as [|c r]; [exact I|].
  destruct (Ascii.eqb c "-"); [apply onGrid_neg, onGrid_unsigned_literal|].
  destruct (Ascii.eqb c "+"); apply onGrid_unsigned_literal.
Qed.

Lemma onGrid_getTime (d : Date) : onGrid (getTime d).
Proof. destruct d as [t|]; [apply grid_inject_Z|exact I]. Qed.

Lemma sign_sub_finite (p q : Q) :
  grid p -> grid q -> sign (sub (Finite p) (Finite q)) = Qsign (Qminus p q).
Proof. intros Hp Hq. apply sign_round64. now apply grid_minus. Qed.
End RoundingFacts.

Section NumberFacts.
Import JS.
Local Open Scope Q_scope.

Lemma Qsign_opp_minus (p q : Q) : Qsign (q - p) = CompOpp (Qsign (p - q)).
Proof.
  rewrite <- Qsign_opp. unfold Qsign.
  apply Qcompare_comp; [ring|reflexivity].
Qed.

Lemma Qsign_minus_gt (p q : Q) : Qsign (p - q) = Gt <-> Qle_bool p q = false.
Proof.
  unfold Qsign. rewrite <- Qgt_alt.
  assert (Hiff : 0 < p - q <-> q < p).
  { rewrite (Qlt_minus_iff q p). reflexivity. }
  rewrite Hiff. split; intros H.
  - destruct (Qle_bool p q) eqn:E; [|reflexivity].
    apply Qle_bool_iff in E. exfalso. exact (Qlt_not_le _ _ H E).
  - apply Qnot_le_lt. intros Hle. apply Qle_bool_iff in Hle. congruence.
Qed.

Lemma sign_neg (v : number) : sign (neg v) = CompOpp (sign v).
Proof.
  destruct v as [|[]|q]; simpl; try reflexivity. apply Qsign_opp.
Qed.

Lemma sign_sub_gt (x y : number) :
  onGrid x -> onGrid y -> isNaN x = false -> isNaN y = false ->
  (sign (sub x y) = Gt <-> leb x y = false).
Proof.
  destruct x as [|s|p], y as [|t|q]; intros Gx Gy;
    try (rewrite (sign_sub_finite p q Gx Gy));
    simpl; try discriminate; intros _ _.
  - destruct s, t; simpl; split; congruence.
  - destruct s; simpl; split; congruence.
  - destruct t; simpl; split; congruence.
  - apply Qsign_minus_gt.
Qed.

Lemma sign_sub_lt (x y : number) :
  onGrid x -> onGrid y -> isNaN x = false -> isNaN y = false ->
  (sign (sub x y) = Lt <-> geb x y = false).
Proof.
  destruct x as [|s|p], y as [|t|q]; intros Gx Gy;
    try (rewrite (sign_sub_finite p q Gx Gy));
    simpl; try discriminate; intros _ _.
  - destruct s, t; simpl; split; congruence.
  - destruct s; simpl; split; congruence.
  - destruct t; simpl; split; congruence.
  - rewrite <- (Qsign_minus_gt q p), (Qsign_opp_minus p q).
    destruct (Qsign (p - q)); simpl; split; congruence.
Qed.

Lemma geb_trans (x y z : number) :
  geb x y = true -> geb y z = true -> geb x z = true.
Proof.
  destruct x as [|s|p], y as [|t|q], z as [|u|r]; simpl;
    try discriminate; try tauto;
    try (destruct s; simpl; congruence);
    try (destruct u; simpl; congruence);
    try (destruct t; simpl; congruence);
    try (destruct s, t; simpl; congruence);
    try (destruct s, t, u; simpl; congruence).
  rewrite !Qle_bool_iff. intros; eapply Qle_trans; eauto.
Qed.

Lemma geb_total (x y : number) :
  isNaN x = false -> isNaN y = false -> geb x y = false -> geb y x = true.
Proof.
  destruct x as [|s|p], y as [|t|q]; simpl; try discriminate; intros _ _.
  - destruct s, t; simpl; congruence.
  - destruct s; simpl; congruence.
  - destruct t; simpl; congruence.
  - intros H. apply Qle_bool_iff. apply Qlt_le_weak, Qnot_le_lt.
    intros Hle. apply Qle_bool_iff in Hle. congruence.
Qed.

Lemma sub_NaN_l (x y : number) : isNaN x = true -> sub x y = NaN.
Proof. destruct x; simpl; try discriminate. reflexivity. Qed.

Lemma sub_NaN_r (x y : number) : isNaN y = true -> sub x y = NaN.
Proof. destruct y; simpl; try discriminate. now destruct x. Qed.
End NumberFacts.

Section ListFacts.
Context {A : Type}.

Lemma StronglySorted_app_iff (R : A -> A -> Prop) (l1 l2 : list A) :
  StronglySorted R (l1 ++ l2)%list
  <-> StronglySorted R l1 /\ StronglySorted R l2
      /\ (forall a b, In a l1 -> In b l2 -> R a b).
Proof.
  induction l1 as [|x l1 IH]; simpl.
  - split; [intros H; repeat split; [constructor|exact H|tauto]|tauto].
  - split.
    + intros H. inversion H as [|? ? Hs Hx]; subst.
      apply IH in Hs. destruct Hs as (H1 & H2 & H12).
      rewrite Forall_app in Hx. destruct Hx as [Hx1 Hx2].
      repeat split; [constructor; assumption|assumption|].
      intros a b [<-|Ha] Hb; [|auto].
      rewrite Forall_forall in Hx2. auto.
    + intros (H1 & H2 & H12). inversion H1 as [|? ? Hs Hx]; subst.
      constructor.
      * apply IH. repeat split; auto.
      * apply Forall_app. split; [assumption|].
        apply Forall_forall. intros b Hb. apply H12; auto.
Qed.

Lemma StronglySorted_rev (R : A -> A -> Prop) (l : list A) :
  StronglySorted (fun a b => R b a) l -> StronglySorted R (rev l).
Proof.
  induction 1 as [|x l Hs IH Hx]; simpl; [constructor|].
  apply StronglySorted_app_iff. repeat split.
  - exact IH.
  - constructor; constructor.
  - intros a b Ha [<-|[]]. apply in_rev in Ha.
    rewrite Forall_forall in Hx. auto.
Qed.

(** A list whose neighbours are related by [T] is sorted by [S] as a whole
    when, on a domain [D], [T] implies [S] and [S] is transitive. *)
Lemma Sorted_StronglySorted_on (D : A -> Prop) (T S : A -> A -> Prop)
    (l : list A) :
  (forall x y, D x -> D y -> T x y -> S x y) ->
  (forall x y z, D x -> D y -> D z -> S x y -> S y z -> S x z) ->
  Forall D l -> Sorted T l -> StronglySorted S l.
Proof.
  intros HTS Htrans Dl Hs. induction Hs as [|x l Hs IH Hhd]; [constructor|].
  inversion Dl as [|? ? Dx Dl']; subst. specialize (IH Dl').
  constructor; [exact IH|].
  destruct Hhd as [|y l Hxy]; [constructor|].
  inversion Dl' as [|? ? Dy Dl'']; subst.
  inversion IH as [|? ? _ Hy]; subst.
  constructor; [auto|].
  rewrite Forall_forall in *. intros z Hz.
  apply (Htrans x y z); auto.
Qed.

Lemma StronglySorted_weaken_on (D : A -> Prop) (R S : A -> A -> Prop)
    (l : list A) :
  (forall x y, D x -> D y -> R x y -> S x y) ->
  Forall D l -> StronglySorted R l -> StronglySorted S l.
Proof.
  intros HRS Dl Hs. induction Hs as [|x l Hs IH Hx]; [constructor|].
  inversion Dl as [|? ? Dx Dl']; subst.
  constructor; [auto|].
  rewrite Forall_forall in *. auto.
Qed.
End ListFacts.

Section SortFacts.
Context {A : Type}.
Variable comparefn : A -> A -> JS.number.

(** An insertion puts the pivot somewhere in the list and moves nothing
    else. *)
Lemma binary_insert_split (fuel : nat) (x : A) (l : list A) :
  (List.length l < fuel)%nat ->
  exists l1 l2, l = (l1 ++ l2)%list
                /\ JS.binary_insert fuel comparefn x l = (l1 ++ x :: l2)%list.
Proof.
  revert l. induction fuel as [|fuel IH]; intros l Hlen; [lia|].
  cbn [JS.binary_insert].
  destruct (skipn (Nat.div2 (List.length l)) l) as [|m above] eqn:Es.
  - exists l, []. now rewrite app_nil_r.
  - pose proof (firstn_skipn (Nat.div2 (List.length l)) l) as Hl.
    rewrite Es in Hl.
    assert (Hlens : (List.length (firstn (Nat.div2 (List.length l)) l)
                     + S (List.length above) = List.length l)%nat).
    { rewrite <- Hl at 3. rewrite length_app. reflexivity. }
    destruct (JS.lessThan comparefn x m).
    + destruct (IH (firstn (Nat.div2 (List.length l)) l)) as (l1 & l2 & E1 & E2);
        [lia|].
      exists l1, (l2 ++ m :: above)%list. split.
      * rewrite <- Hl at 1. rewrite E1, <- app_assoc. reflexivity.
      * rewrite E2, <- app_assoc. reflexivity.
    + destruct (IH above) as (l1 & l2 & E1 & E2); [lia|].
      exists (firstn (Nat.div2 (List.length l)) l ++ m :: l1)%list, l2. split.
      * rewrite <- Hl at 1. rewrite E1, <- app_assoc. reflexivity.
      * rewrite E2, <- app_assoc. reflexivity.
Qed.

Lemma binary_insert_perm (x : A) (l : list A) :
  Permutation (JS.binary_insert (S (List.length l)) comparefn x l) (x :: l).
Proof.
  destruct (binary_insert_split (S (List.length l)) x l) as (l1 & l2 & E1 & E2);
    [lia|].
  rewrite E2, E1. symmetry. apply Permutation_middle.
Qed.

Lemma binaryInsertionSort_perm (run rest : list A) :
  Permutation (JS.binaryInsertionSort comparefn run rest) (run ++ rest)%list.
Proof.
  unfold JS.binaryInsertionSort. revert run.
  induction rest as [|x rest IH]; intros run; cbn [fold_left].
  - now rewrite app_nil_r.
  - rewrite IH, binary_insert_perm. apply Permutation_middle.
Qed.

Lemma run_end_app (d : bool) (prev : A) (l : list A) :
  (fst (JS.run_end comparefn d prev l) ++ snd (JS.run_end comparefn d prev l))%list
  = l.
Proof.
  revert prev. induction l as [|x l IH]; intros prev; simpl; [reflexivity|].
  destruct (Bool.eqb _ _); [|reflexivity].
  specialize (IH x). destruct (JS.run_end comparefn d x l) as [run rest].
  simpl in *. now rewrite IH.
Qed.

Lemma countAndMakeRun_perm (l : list A) :
  Permutation (fst (JS.countAndMakeRun comparefn l)
               ++ snd (JS.countAndMakeRun comparefn l))%list l.
Proof.
  destruct l as [|x [|y l]]; try reflexivity.
  cbn [JS.countAndMakeRun].
  pose proof (run_end_app (JS.lessThan comparefn y x) y l) as H.
  destruct (JS.run_end comparefn _ y l) as [run rest].
  cbn [fst snd] in *. subst l.
  destruct (JS.lessThan comparefn y x); [|reflexivity].
  change (Permutation (rev (x :: y :: run) ++ rest) ((x :: y :: run) ++ rest)).
  apply Permutation_app_tail. symmetry. apply Permutation_rev.
Qed.

Lemma sort_perm (l : list A) : Permutation (JS.sort comparefn l) l.
Proof.
  unfold JS.sort. pose proof (countAndMakeRun_perm l) as H.
  destruct (JS.countAndMakeRun comparefn l) as [run rest]. simpl in H.
  now rewrite binaryInsertionSort_perm.
Qed.

Lemma sort_length (l : list A) :
  List.length (JS.sort comparefn l) = List.length l.
Proof. apply Permutation_length, sort_perm. Qed.

Lemma sort_In (x : A) (l : list A) : In x (JS.sort comparefn l) <-> In x l.
Proof.
  split; apply Permutation_in; [|symmetry]; apply sort_perm.
Qed.

Lemma run_end_sorted (d : bool) (prev : A) (l : list A) :
  Sorted (fun p c => JS.lessThan comparefn c p = d)
         (prev :: fst (JS.run_end comparefn d prev l)).
Proof.
  revert prev. induction l as [|x l IH]; intros prev; cbn [JS.run_end].
  - repeat constructor.
  - destruct (Bool.eqb (JS.lessThan comparefn x prev) d) eqn:E.
    + specialize (IH x). destruct (JS.run_end comparefn d x l) as [run rest].
      cbn [fst] in *. constructor; [exact IH|].
      constructor. now apply eqb_prop.
    + repeat constructor.
Qed.

(** Order and stability.  On a domain [D] where the comparator agrees with a
    transitive relation [R], the output is sorted by [R]; where a result
    below zero moreover excludes the converse of [R], a selection [P] whose
    members all compare equal keeps its order. *)
Section Ordered.
Variable D : A -> Prop.
Variable R : A -> A -> Prop.
Hypothesis R_gt :
  forall x y, D x -> D y -> JS.SortCompare comparefn x y = Gt -> R y x.
Hypothesis R_le :
  forall x y, D x -> D y -> JS.SortCompare comparefn x y <> Gt -> R x y.
Hypothesis R_eq :
  forall x y, D x -> D y -> JS.SortCompare comparefn x y = Eq -> R y x.
Hypothesis R_trans :
  forall x y z, D x -> D y -> D z -> R x y -> R y z -> R x z.

Lemma lessThan_true (x y : A) :
  D x -> D y -> JS.lessThan comparefn x y = true -> R x y.
Proof.
  unfold JS.lessThan. intros Dx Dy H. apply R_le; auto.
  destruct (JS.SortCompare comparefn x y); congruence.
Qed.

Lemma lessThan_false (x y : A) :
  D x -> D y -> JS.lessThan comparefn x y = false -> R y x.
Proof.
  unfold JS.lessThan. intros Dx Dy H.
  destruct (JS.SortCompare comparefn x y) eqn:E; try discriminate; auto.
Qed.

(** Where the pivot lands in a sorted list: after elements that are below or
    equal to it, and before elements that lie at or above some [m] it
    compared below. *)
Lemma binary_insert_ordered (fuel : nat) (x : A) (l : list A) :
  D x -> Forall D l -> StronglySorted R l -> (List.length l < fuel)%nat ->
  exists l1 l2,
    l = (l1 ++ l2)%list
    /\ JS.binary_insert fuel comparefn x l = (l1 ++ x :: l2)%list
    /\ Forall (fun e => R e x) l1
    /\ Forall (fun e => R x e
                        /\ exists m, D m /\ JS.lessThan comparefn x m = true
                                     /\ (m = e \/ R m e)) l2.
Proof.
  intros Dx. revert l. induction fuel as [|fuel IH]; intros l Dl Hs Hlen; [lia|].
  cbn [JS.binary_insert].
  destruct (skipn (Nat.div2 (List.length l)) l) as [|m above] eqn:Es.
  - assert (l = []) as ->.
    { destruct l as [|y l]; [reflexivity|]. exfalso.
      assert (Hlt : (Nat.div2 (List.length (y :: l)) < List.length (y :: l))%nat)
        by (apply Nat.lt_div2; simpl; lia).
      apply (f_equal (@List.length A)) in Es. rewrite length_skipn in Es.
      simpl in Es, Hlt. lia. }
    exists [], []. repeat split; constructor.
  - pose proof (firstn_skipn (Nat.div2 (List.length l)) l) as Hl.
    rewrite Es in Hl.
    set (below := firstn (Nat.div2 (List.length l)) l) in *.
    assert (Hlens : (List.length below + S (List.length above)
                     = List.length l)%nat).
    { rewrite <- Hl. rewrite length_app. reflexivity. }
    rewrite <- Hl in Dl, Hs.
    apply Forall_app in Dl. destruct Dl as [Dbelow Dma].
    apply Forall_cons_iff in Dma. destruct Dma as [Dm Dabove].
    apply StronglySorted_app_iff in Hs. destruct Hs as (Hs1 & Hs2 & H12).
    apply StronglySorted_inv in Hs2. destruct Hs2 as [Hs3 Hm].
    destruct (JS.lessThan comparefn x m) eqn:E.
    + destruct (IH below Dbelow Hs1) as (l1 & l2 & E1 & E2 & H1 & H2); [lia|].
      exists l1, (l2 ++ m :: above)%list. repeat split.
      * rewrite <- Hl, E1, <- app_assoc. reflexivity.
      * rewrite E2, <- app_assoc. reflexivity.
      * exact H1.
      * apply Forall_app. split; [exact H2|].
        assert (Rxm : R x m) by (apply lessThan_true; auto).
        constructor.
        -- split; [exact Rxm|]. exists m. auto.
        -- rewrite Forall_forall in *. intros e He. split.
           ++ apply (R_trans x m e); auto.
           ++ exists m. auto.
    + destruct (IH above Dabove Hs3) as (l1 & l2 & E1 & E2 & H1 & H2); [lia|].
      exists (below ++ m :: l1)%list, l2. repeat split.
      * rewrite <- Hl, E1, <- app_assoc. reflexivity.
      * rewrite E2, <- app_assoc. reflexivity.
      * assert (Rmx : R m x) by (apply lessThan_false; auto).
        apply Forall_app. split.
        -- rewrite Forall_forall in *. intros e He.
           apply (R_trans e m x); auto. apply H12; simpl; auto.
        -- constructor; assumption.
      * exact H2.
Qed.

Lemma binary_insert_sorted (x : A) (l : list A) :
  D x -> Forall D l -> StronglySorted R l ->
  StronglySorted R (JS.binary_insert (S (List.length l)) comparefn x l).
Proof.
  intros Dx Dl Hs.
  destruct (binary_insert_ordered (S (List.length l)) x l Dx Dl Hs)
    as (l1 & l2 & E1 & E2 & H1 & H2); [lia|].
  rewrite E2. subst l.
  apply StronglySorted_app_iff in Hs. destruct Hs as (Hs1 & Hs2 & H12).
  apply StronglySorted_app_iff. repeat split.
  - exact Hs1.
  - constructor; [exact Hs2|].
    apply Forall_forall. intros e He. rewrite Forall_forall in H2.
    exact (proj1 (H2 e He)).
  - intros a b Ha [<-|Hb]; [|auto].
    rewrite Forall_forall in H1. auto.
Qed.

Lemma binaryInsertionSort_sorted (run rest : list A) :
  Forall D run -> Forall D rest -> StronglySorted R run ->
  StronglySorted R (JS.binaryInsertionSort comparefn run rest).
Proof.
  unfold JS.binaryInsertionSort. revert run.
  induction rest as [|x rest IH]; intros run Drun Drest Hs; cbn [fold_left].
  - exact Hs.
  - inversion Drest as [|? ? Dx Drest']; subst.
    apply IH; [|exact Drest'|apply binary_insert_sorted; assumption].
    apply Forall_forall. intros z Hz.
    apply (Permutation_in _ (binary_insert_perm x run)) in Hz.
    rewrite Forall_forall in Drun. destruct Hz as [<-|Hz]; auto.
Qed.

Lemma countAndMakeRun_D (l : list A) :
  Forall D l ->
  Forall D (fst (JS.countAndMakeRun comparefn l))
  /\ Forall D (snd (JS.countAndMakeRun comparefn l)).
Proof.
  intros Dl. apply Forall_app.
  apply Forall_forall. intros z Hz.
  apply (Permutation_in _ (countAndMakeRun_perm l)) in Hz.
  rewrite Forall_forall in Dl. auto.
Qed.

Lemma countAndMakeRun_sorted (l : list A) :
  Forall D l -> StronglySorted R (fst (JS.countAndMakeRun comparefn l)).
Proof.
  intros Dl. pose proof (proj1 (countAndMakeRun_D l Dl)) as Drun. revert Drun.
  destruct l as [|x [|y l]]; cbn [JS.countAndMakeRun fst].
  - constructor.
  - repeat constructor.
  - pose proof (run_end_sorted (JS.lessThan comparefn y x) y l) as Hrun.
    destruct (JS.run_end comparefn _ y l) as [run rest]. cbn [fst] in *.
    assert (Hwhole : Sorted (fun p c => JS.lessThan comparefn c p
                                        = JS.lessThan comparefn y x)
                            (x :: y :: run))
      by (constructor; [exact Hrun|constructor; reflexivity]).
    destruct (JS.lessThan comparefn y x); cbn [fst]; intros Drun.
    + apply StronglySorted_rev.
      assert (Dwhole : Forall D (x :: y :: run)).
      { apply Forall_forall. intros z Hz. rewrite Forall_forall in Drun.
        apply Drun. now apply -> in_rev. }
      apply (Sorted_StronglySorted_on D
               (fun p c => JS.lessThan comparefn c p = true)); auto.
      * intros p c Dp Dc H. apply lessThan_true; auto.
      * intros p c b Dp Dc Db H1 H2. apply (R_trans b c p); auto.
    + apply (Sorted_StronglySorted_on D
               (fun p c => JS.lessThan comparefn c p = false)); auto.
      intros p c Dp Dc H. apply lessThan_false; auto.
Qed.

Lemma sort_sorted (l : list A) :
  Forall D l -> StronglySorted R (JS.sort comparefn l).
Proof.
  intros Dl. unfold JS.sort.
  pose proof (countAndMakeRun_D l Dl) as [Drun Drest].
  pose proof (countAndMakeRun_sorted l Dl) as Hs.
  destruct (JS.countAndMakeRun comparefn l) as [run rest]. cbn [fst snd] in *.
  now apply binaryInsertionSort_sorted.
Qed.

Section Stable.
Hypothesis R_strict :
  forall x y, D x -> D y -> JS.SortCompare comparefn x y = Lt -> ~ R y x.
Variable P : A -> bool.
Hypothesis P_equal :
  forall x y, P x = true -> P y = true ->
              JS.SortCompare comparefn x y = Eq.

Lemma filter_binary_insert (x : A) (l : list A) :
  D x -> Forall D l -> StronglySorted R l ->
  filter P (JS.binary_insert (S (List.length l)) comparefn x l)
  = (filter P l ++ filter P [x])%list.
Proof.
  intros Dx Dl Hs.
  destruct (binary_insert_ordered (S (List.length l)) x l Dx Dl Hs)
    as (l1 & l2 & E1 & E2 & H1 & H2); [lia|].
  rewrite E2. subst l. rewrite !filter_app. cbn [filter].
  destruct (P x) eqn:Px; [|now rewrite app_nil_r].
  assert (Hnone : filter P l2 = []).
  { apply Forall_app in Dl. destruct Dl as [_ Dl2].
    clear - H2 Dl2 Px Dx R_eq R_trans R_strict P_equal.
    induction l2 as [|e l2 IH]; [reflexivity|].
    inversion H2 as [|? ? He H2']; subst.
    inversion Dl2 as [|? ? De Dl2']; subst.
    cbn [filter]. destruct (P e) eqn:Pe; [|auto].
    exfalso. destruct He as (_ & m & Dm & Hlt & Hme).
    assert (Rex : R e x) by (apply R_eq; auto).
    assert (Rmx : R m x).
    { destruct Hme as [->|Hme]; [exact Rex|]. apply (R_trans m e x); auto. }
    apply (R_strict x m Dx Dm); [|exact Rmx].
    unfold JS.lessThan in Hlt.
    destruct (JS.SortCompare comparefn x m); congruence. }
  rewrite Hnone, app_nil_r. reflexivity.
Qed.

Lemma filter_binaryInsertionSort (run rest : list A) :
  Forall D run -> Forall D rest -> StronglySorted R run ->
  filter P (JS.binaryInsertionSort comparefn run rest)
  = (filter P run ++ filter P rest)%list.
Proof.
  unfold JS.binaryInsertionSort. revert run.
  induction rest as [|x rest IH]; intros run Drun Drest Hs; cbn [fold_left].
  - cbn [filter]. now rewrite app_nil_r.
  - inversion Drest as [|? ? Dx Drest']; subst.
    rewrite IH; [|  |exact Drest'|apply binary_insert_sorted; assumption].
    + rewrite filter_binary_insert by assumption.
      rewrite <- app_assoc. cbn [filter]. now destruct (P x).
    + apply Forall_forall. intros z Hz.
      apply (Permutation_in _ (binary_insert_perm x run)) in Hz.
      rewrite Forall_forall in Drun. destruct Hz as [<-|Hz]; auto.
Qed.

(** Reversing a strictly descending run moves no member of [P] past
    another: it holds at most one. *)
Lemma filter_rev_descending (l : list A) :
  Forall D l ->
  Sorted (fun p c => JS.lessThan comparefn c p = true) l ->
  filter P (rev l) = filter P l.
Proof.
  intros Dl Hs.
  assert (Hss : StronglySorted (fun p c => R c p /\ ~ R p c) l).
  { apply (Sorted_StronglySorted_on D
             (fun p c => JS.lessThan comparefn c p = true)); auto.
    - intros p c Dp Dc H. split; [apply lessThan_true; auto|].
      apply R_strict; auto. unfold JS.lessThan in H.
      destruct (JS.SortCompare comparefn c p); congruence.
    - intros p c b Dp Dc Db [H1 N1] [H2 N2]. split.
      + apply (R_trans b c p); auto.
      + intros H. apply N1. apply (R_trans p b c); auto. }
  clear Hs. induction Hss as [|a l Hss IH Ha]; [reflexivity|].
  inversion Dl as [|? ? Da Dl']; subst.
  cbn [rev]. rewrite filter_app, (IH Dl'). cbn [filter].
  destruct (P a) eqn:Pa; [|now rewrite app_nil_r].
  assert (Hnone : filter P l = []).
  { clear - Ha Dl' Da Pa R_eq P_equal.
    induction l as [|b l IHl]; [reflexivity|].
    inversion Ha as [|? ? [_ Hb] Ha']; subst.
    inversion Dl' as [|? ? Db Dl'']; subst.
    cbn [filter]. destruct (P b) eqn:Pb; [|auto].
    exfalso. apply Hb. apply R_eq; auto. }
  rewrite Hnone. reflexivity.
Qed.

Lemma filter_countAndMakeRun (l : list A) :
  Forall D l ->
  (filter P (fst (JS.countAndMakeRun comparefn l))
   ++ filter P (snd (JS.countAndMakeRun comparefn l)))%list
  = filter P l.
Proof.
  intros Dl. pose proof (proj1 (countAndMakeRun_D l Dl)) as Drun. revert Drun.
  destruct l as [|x [|y l]]; cbn [JS.countAndMakeRun fst snd];
    try (intros _; now rewrite app_nil_r).
  pose proof (run_end_sorted (JS.lessThan comparefn y x) y l) as Hrun.
  pose proof (run_end_app (JS.lessThan comparefn y x) y l) as Happ.
  destruct (JS.run_end comparefn _ y l) as [run rest]. cbn [fst snd] in *.
  subst l.
  assert (Hwhole : Sorted (fun p c => JS.lessThan comparefn c p
                                      = JS.lessThan comparefn y x)
                          (x :: y :: run))
    by (constructor; [exact Hrun|constructor; reflexivity]).
  change (x :: y :: run ++ rest)%list with ((x :: y :: run) ++ rest)%list.
  rewrite filter_app.
  destruct (JS.lessThan comparefn y x); cbn [fst snd]; intros Drun;
    [|reflexivity].
  rewrite filter_rev_descending; [reflexivity| |exact Hwhole].
  apply Forall_forall. intros z Hz. rewrite Forall_forall in Drun.
  apply Drun. now apply -> in_rev.
Qed.

Lemma sort_stable (l : list A) :
  Forall D l -> filter P (JS.sort comparefn l) = filter P l.
Proof.
  intros Dl. unfold JS.sort.
  pose proof (countAndMakeRun_D l Dl) as [Drun Drest].
  pose proof (countAndMakeRun_sorted l Dl) as Hs.
  pose proof (filter_countAndMakeRun l Dl) as Hf.
  destruct (JS.countAndMakeRun comparefn l) as [run rest]. cbn [fst snd] in *.
  rewrite filter_binaryInsertionSort by assumption. exact Hf.
Qed.
End Stable.
End Ordered.
End SortFacts.

Section KeyedSort.
Context {A : Type}.
Variable key : A -> JS.number.
Hypothesis key_onGrid : forall x, JS.onGrid (key x).

Lemma byKey_gt (o : SortOrder) (x y : A) :
  JS.isNaN (key x) = false -> JS.isNaN (key y) = false ->
  JS.SortCompare (byKey key o) x y = Gt -> keyOrdered key o y x.
Proof.
  unfold JS.SortCompare, byKey, keyOrdered. intros Dx Dy.
  pose proof (sign_sub_gt _ _ (key_onGrid x) (key_onGrid y) Dx Dy) as Hgt.
  pose proof (sign_sub_lt _ _ (key_onGrid x) (key_onGrid y) Dx Dy) as Hlt.
  destruct o; intros H.
  - apply Hgt in H. unfold JS.leb in *. now apply geb_total.
  - rewrite sign_neg in H. apply geb_total; auto. apply Hlt.
    destruct (JS.sign _); simpl in H; congruence.
Qed.

Lemma byKey_le (o : SortOrder) (x y : A) :
  JS.isNaN (key x) = false -> JS.isNaN (key y) = false ->
  JS.SortCompare (byKey key o) x y <> Gt -> keyOrdered key o x y.
Proof.
  unfold JS.SortCompare, byKey, keyOrdered. intros Dx Dy.
  pose proof (sign_sub_gt _ _ (key_onGrid x) (key_onGrid y) Dx Dy) as Hgt.
  pose proof (sign_sub_lt _ _ (key_onGrid x) (key_onGrid y) Dx Dy) as Hlt.
  destruct o; intros H.
  - destruct (JS.leb _ _); [reflexivity|].
    exfalso. apply H. now apply Hgt.
  - rewrite sign_neg in H. destruct (JS.geb _ _); [reflexivity|].
    exfalso. apply H. now rewrite (proj2 Hlt eq_refl).
Qed.

Lemma byKey_eq (o : SortOrder) (x y : A) :
  JS.isNaN (key x) = false -> JS.isNaN (key y) = false ->
  JS.SortCompare (byKey key o) x y = Eq -> keyOrdered key o y x.
Proof.
  unfold JS.SortCompare, byKey, keyOrdered. intros Dx Dy.
  pose proof (sign_sub_gt _ _ (key_onGrid x) (key_onGrid y) Dx Dy) as Hgt.
  pose proof (sign_sub_lt _ _ (key_onGrid x) (key_onGrid y) Dx Dy) as Hlt.
  destruct o; intros H.
  - unfold JS.leb. destruct (JS.geb (key x) (key y)); [reflexivity|].
    rewrite (proj2 Hlt eq_refl) in H. discriminate.
  - rewrite sign_neg in H.
    change (JS.leb (key x) (key y) = true).
    destruct (JS.leb (key x) (key y)); [reflexivity|].
    rewrite (proj2 Hgt eq_refl) in H. discriminate.
Qed.

Lemma keyOrdered_trans (o : SortOrder) (x y z : A) :
  keyOrdered key o x y -> keyOrdered key o y z -> keyOrdered key o x z.
Proof.
  unfold keyOrdered.
  destruct o; intros H1 H2; unfold JS.leb in *; eapply geb_trans; eauto.
Qed.

Lemma byKey_strict (o : SortOrder) (x y : A) :
  JS.isNaN (key x) = false -> JS.isNaN (key y) = false ->
  JS.SortCompare (byKey key o) x y = Lt -> ~ keyOrdered key o y x.
Proof.
  unfold JS.SortCompare, byKey, keyOrdered. intros Dx Dy.
  pose proof (sign_sub_gt _ _ (key_onGrid x) (key_onGrid y) Dx Dy) as Hgt.
  pose proof (sign_sub_lt _ _ (key_onGrid x) (key_onGrid y) Dx Dy) as Hlt.
  destruct o; intros H Hyx.
  - apply Hlt in H. unfold JS.leb in Hyx. congruence.
  - rewrite sign_neg in H.
    assert (E : JS.sign (JS.sub (key x) (key y)) = Gt)
      by (destruct (JS.sign _); simpl in H; congruence).
    apply Hgt in E. unfold JS.leb in E. congruence.
Qed.

(** A comparator that subtracts keys, negated for a descending sort, puts
    the elements whose keys are numbers in the order of their keys. *)
Lemma keyed_sort_sorted (o : SortOrder) (l : list A) :
  Forall (fun x => JS.isNaN (key x) = false) l ->
  StronglySorted (keyOrdered key o) (JS.sort (byKey key o) l).
Proof.
  intros Hl.
  apply (sort_sorted _ (fun x => JS.isNaN (key x) = false)); [| | | |exact Hl].
  - apply byKey_gt.
  - apply byKey_le.
  - apply byKey_eq.
  - intros x y z _ _ _. apply keyOrdered_trans.
Qed.

(** Such a sort keeps the order of elements that compare equal, when every
    key is a number. *)
Lemma keyed_sort_stable (o : SortOrder) (P : A -> bool) (l : list A) :
  Forall (fun x => JS.isNaN (key x) = false) l ->
  (forall x y, P x = true -> P y = true ->
               JS.SortCompare (byKey key o) x y = Eq) ->
  filter P (JS.sort (byKey key o) l) = filter P l.
Proof.
  intros Hl HP.
  apply (sort_stable _ (fun x => JS.isNaN (key x) = false) (keyOrdered key o));
    [| | | | |exact HP|exact Hl].
  - apply byKey_gt.
  - apply byKey_le.
  - apply byKey_eq.
  - intros x y z _ _ _. apply keyOrdered_trans.
  - apply byKey_strict.
Qed.
End KeyedSort.

Section SliceFacts.
Context {A : Type}.

Lemma slice_nat (l : list A) (a b : nat) :
  JS.slice l (Z.of_nat a) (Z.of_nat a + Z.of_nat b) = firstn b (skipn a l).
Proof.
  unfold JS.slice.
  destruct (Z.ltb_spec (Z.of_nat a) 0) as [H|_]; [lia|].
  destruct (Z.ltb_spec (Z.of_nat a + Z.of_nat b) 0) as [H|_]; [lia|].
  destruct (Nat.le_gt_cases a (List.length l)) as [Ha|Ha].
  - rewrite (Z.min_l (Z.of_nat a)) by lia. rewrite Nat2Z.id.
    destruct (Nat.le_gt_cases (a + b) (List.length l)) as [Hb|Hb].
    + rewrite Z.min_l by lia. f_equal. lia.
    + rewrite Z.min_r by lia.
      rewrite !firstn_all2; try reflexivity; rewrite length_skipn; lia.
  - rewrite !skipn_all2 by lia. now rewrite !firstn_nil.
Qed.

Lemma slice_beyond (l : list A) (start stop : Z) :
  Z.of_nat (List.length l) <= start -> start <= stop -> JS.slice l start stop = [].
Proof.
  intros H1 H2. unfold JS.slice.
  destruct (Z.ltb_spec start 0) as [H|_]; [lia|].
  destruct (Z.ltb_spec stop 0) as [H|_]; [lia|].
  rewrite !Z.min_r by lia. rewrite Z.sub_diag. reflexivity.
Qed.

(** Cutting a list into [m] consecutive chunks of [n] elements loses
    nothing when [m * n] reaches its length. *)
Lemma concat_chunks (n m : nat) (l : list A) :
  (List.length l <= m * n)%nat ->
  List.concat (map (fun i => firstn n (skipn (i * n) l)) (seq 0 m)) = l.
Proof.
  revert l. induction m as [|m IH]; intros l Hl.
  - destruct l; [reflexivity|simpl in Hl; lia].
  - rewrite <- cons_seq, <- seq_shift. rewrite map_cons, map_map.
    rewrite concat_cons. change (skipn (0 * n) l) with l.
    transitivity (firstn n l ++ skipn n l)%list; [|apply firstn_skipn].
    f_equal.
    transitivity
      (List.concat (map (fun i => firstn n (skipn (i * n) (skipn n l)))
                        (seq 0 m)));
      [|apply IH; rewrite length_skipn; lia].
    f_equal. apply map_ext. intros i.
    rewrite skipn_skipn. f_equal. f_equal. lia.
Qed.
End SliceFacts.

Lemma ceil_div_covers (n d : Z) : 0 < d -> n <= JS.ceil_div n d * d.
Proof.
  intros Hd. unfold JS.ceil_div.
  pose proof (Z.mul_succ_div_gt (n + d - 1) d Hd). lia.
Qed.

Lemma ceil_div_nonneg (n d : Z) : 0 <= n -> 0 < d -> 0 <= JS.ceil_div n d.
Proof.
  intros Hn Hd. unfold JS.ceil_div. apply Z.div_pos; lia.
Qed.

Lemma ceil_div_tight (n d : Z) : 0 < d -> (JS.ceil_div n d - 1) * d < n.
Proof.
  intros Hd. unfold JS.ceil_div.
  pose proof (Z.mul_div_le (n + d - 1) d Hd). lia.
Qed.

(** * The transactions page: pagination *)

Section PaginationFacts.
Variable host : JS.Host.
Variable itemsPerPage : Z.

Lemma filteredAndSorted_setCurrentPage (p : Z) (st : State) :
  filteredAndSortedTransactions host (setCurrentPage p st)
  = filteredAndSortedTransactions host st.
Proof. reflexivity. Qed.

Lemma paginated_chunk (st : State) (i : nat) :
  0 <= itemsPerPage ->
  paginatedTransactions host itemsPerPage
                        (setCurrentPage (Z.of_nat (S i)) st)
  = firstn (Z.to_nat itemsPerPage)
           (skipn (i * Z.to_nat itemsPerPage)
                  (filteredAndSortedTransactions host st)).
Proof.
  intros Hp. unfold paginatedTransactions.
  rewrite filteredAndSorted_setCurrentPage. cbn [currentPage setCurrentPage].
  rewrite <- slice_nat. f_equal; lia.
Qed.
End PaginationFacts.

(** C1, as amended.  The page number is not clamped: when [currentPage] is
    beyond the last page, the visible slice is empty, and the "showing ... to"
    figure is the total count. *)
Theorem page_beyond_last_is_empty (host : JS.Host) (itemsPerPage : Z) (st : State) :
  1 <= itemsPerPage ->
  totalPages host itemsPerPage st < currentPage st ->
  paginatedTransactions host itemsPerPage st = []
  /\ showingTo host itemsPerPage st
     = Z.of_nat (List.length (filteredAndSortedTransactions host st)).
Proof.
  intros Hp Hlt. unfold totalPages in Hlt.
  set (l := filteredAndSortedTransactions host st) in *.
  pose proof (ceil_div_covers (Z.of_nat (List.length l)) itemsPerPage ltac:(lia)) as Hc.
  assert (Hstart : Z.of_nat (List.length l) <= (currentPage st - 1) * itemsPerPage) by nia.
  split.
  - unfold paginatedTransactions. fold l. apply slice_beyond; lia.
  - unfold showingTo. fold l. lia.
Qed.

Lemma page_beyond_last_is_empty_witness :
  paginatedTransactions Sample.host 15 (Sample.showing Sample.sixteen 9999) = []
  /\ showingTo Sample.host 15 (Sample.showing Sample.sixteen 9999) = 16.
Proof.
  apply (page_beyond_last_is_empty Sample.host 15
                                   (Sample.showing Sample.sixteen 9999)).
  - lia.
  - vm_compute. reflexivity.
Defined.

(** C1, as stated, fails: with sixteen rows there are two pages, and page
    9999 shows no rows although page 2, the last one, has one. *)
Lemma page_9999_not_clamped :
  totalPages Sample.host 15 (Sample.showing Sample.sixteen 9999) = 2
  /\ paginatedTransactions Sample.host 15 (Sample.showing Sample.sixteen 9999)
     = []
  /\ paginatedTransactions Sample.host 15 (Sample.showing Sample.sixteen 2)
     = [Sample.tx "16" "1.0" confirmed].
Proof. vm_compute. repeat split. Qed.

(** C5.  For a page size of at least one, the slices of pages 1 to
    [totalPages], in order, concatenate to the filtered and sorted list. *)
Theorem pagination_coverage (host : JS.Host) (itemsPerPage : Z) (st : State) :
  1 <= itemsPerPage ->
  List.concat
    (map (fun p => paginatedTransactions host itemsPerPage (setCurrentPage p st))
         (map Z.of_nat (seq 1 (Z.to_nat (totalPages host itemsPerPage st)))))
  = filteredAndSortedTransactions host st.
Proof.
  intros Hp. rewrite map_map, <- seq_shift, map_map.
  rewrite (map_ext _ _ (fun i => paginated_chunk host itemsPerPage st i ltac:(lia))).
  apply concat_chunks. unfold totalPages.
  set (l := filteredAndSortedTransactions host st).
  pose proof (ceil_div_covers (Z.of_nat (List.length l)) itemsPerPage ltac:(lia)).
  pose proof (ceil_div_nonneg (Z.of_nat (List.length l)) itemsPerPage
                              ltac:(lia) ltac:(lia)).
  nia.
Qed.

Lemma pagination_coverage_witness :
  List.concat
    (map (fun p => paginatedTransactions Sample.host 15
                     (setCurrentPage p (Sample.showing Sample.sixteen 1)))
         (map Z.of_nat
              (seq 1 (Z.to_nat (totalPages Sample.host 15
                                           (Sample.showing Sample.sixteen 1))))))
  = filteredAndSortedTransactions Sample.host (Sample.showing Sample.sixteen 1).
Proof.
  apply (pagination_coverage Sample.host 15 (Sample.showing Sample.sixteen 1)).
  lia.
Defined.

(** * The transactions page: filtering and sorting *)

Lemma Status_eqb_eq (a b : Status) : Status_eqb a b = true -> a = b.
Proof. destruct a, b; simpl; congruence. Qed.

Lemma option_string_eqb_eq (a b : option string) :
  option_string_eqb a b = true -> a = b.
Proof.
  destruct a, b; simpl; try congruence. intros H. f_equal.
  now apply String.eqb_eq.
Qed.

Lemma Transaction_eqb_eq (a b : Transaction) : Transaction_eqb a b = true -> a = b.
Proof.
  destruct a, b. unfold Transaction_eqb. simpl. rewrite !andb_true_iff.
  intros [[[[[[[[H1 H2] H3] H4] H5] H6] H7] H8] H9].
  apply String.eqb_eq in H1, H2, H3, H4, H5, H9.
  apply Status_eqb_eq in H6.
  apply option_string_eqb_eq in H7, H8. now subst.
Qed.

Lemma sign_sub_antisym (x y : JS.number) :
  JS.onGrid x -> JS.onGrid y ->
  JS.sign (JS.sub y x) = CompOpp (JS.sign (JS.sub x y)).
Proof.
  destruct x as [|s|p], y as [|t|q]; intros Gx Gy;
    try (rewrite (sign_sub_finite p q Gx Gy), (sign_sub_finite q p Gy Gx));
    simpl; try reflexivity.
  - now destruct s, t.
  - now destruct s.
  - now destruct t.
  - apply Qsign_opp_minus.
Qed.

Lemma sign_localeCompare_antisym (a b : string) :
  JS.sign (JS.localeCompare b a) = CompOpp (JS.sign (JS.localeCompare a b)).
Proof.
  unfold JS.localeCompare. rewrite (String.compare_antisym a b).
  now destruct (String.compare b a).
Qed.

Section ComparatorFacts.
Variable host : JS.Host.

Lemma comparator_antisym (f : SortField.t) (o : SortOrder) (a b : Transaction) :
  JS.SortCompare (comparator host f o) b a
  = CompOpp (JS.SortCompare (comparator host f o) a b).
Proof.
  unfold JS.SortCompare, comparator.
  destruct o; rewrite ?sign_neg; f_equal;
    destruct f;
    auto using sign_sub_antisym, sign_localeCompare_antisym,
               onGrid_parseFloat, onGrid_getTime.
Qed.

Lemma comparator_refl (f : SortField.t) (o : SortOrder) (a : Transaction) :
  JS.SortCompare (comparator host f o) a a = Eq.
Proof.
  pose proof (comparator_antisym f o a a) as H.
  destruct (JS.SortCompare (comparator host f o) a a); simpl in H; congruence.
Qed.

Lemma comparator_amount_NaN (o : SortOrder) (a b : Transaction) :
  JS.isNaN (JS.parseFloat (amount a)) = true
  \/ JS.isNaN (JS.parseFloat (amount b)) = true ->
  JS.SortCompare (comparator host SortField.amount o) a b = Eq.
Proof.
  intros H. unfold JS.SortCompare, comparator.
  assert (E : JS.sub (JS.parseFloat (amount a)) (JS.parseFloat (amount b))
              = JS.NaN)
    by (destruct H; [apply sub_NaN_l|apply sub_NaN_r]; assumption).
  rewrite E. now destruct o.
Qed.

Lemma filtered_incl (st : State) (tx : Transaction) :
  In tx (filtered host st) -> In tx (transactions st).
Proof.
  unfold filtered, beforeSearch, bySearch, byDateTo, byDateFrom, byStatus.
  repeat match goal with
         | |- context [if ?c then _ else _] => destruct c
         end;
    repeat (let H := fresh in intros H; apply filter_In in H; revert H;
            intros [H _]; revert H);
    auto.
Qed.

Lemma filteredAndSorted_perm (st : State) :
  Permutation (filteredAndSortedTransactions host st) (filtered host st).
Proof. apply sort_perm. Qed.
End ComparatorFacts.

Section StatusSort.
Variable host : JS.Host.

Lemma status_gt (o : SortOrder) (x y : Transaction) :
  JS.SortCompare (comparator host SortField.status o) x y = Gt ->
  statusOrdered o y x.
Proof.
  unfold JS.SortCompare, comparator, statusOrdered.
  destruct o, (status x), (status y); vm_compute; congruence.
Qed.

Lemma status_le (o : SortOrder) (x y : Transaction) :
  JS.SortCompare (comparator host SortField.status o) x y <> Gt ->
  statusOrdered o x y.
Proof.
  unfold JS.SortCompare, comparator, statusOrdered.
  destruct o, (status x), (status y); vm_compute; congruence.
Qed.

Lemma status_eq (o : SortOrder) (x y : Transaction) :
  JS.SortCompare (comparator host SortField.status o) x y = Eq ->
  statusOrdered o y x.
Proof.
  unfold JS.SortCompare, comparator, statusOrdered.
  destruct o, (status x), (status y); vm_compute; congruence.
Qed.

Lemma status_trans (o : SortOrder) (x y z : Transaction) :
  statusOrdered o x y -> statusOrdered o y z -> statusOrdered o x z.
Proof. unfold statusOrdered. destruct o; lia. Qed.

Lemma status_strict (o : SortOrder) (x y : Transaction) :
  JS.SortCompare (comparator host SortField.status o) x y = Lt ->
  ~ statusOrdered o y x.
Proof.
  unfold JS.SortCompare, comparator, statusOrdered.
  destruct o, (status x), (status y); vm_compute; congruence.
Qed.

(** The sort stage keeps the order of a selection [P] whose members all
    compare equal, when every row it sorts has a sort key that is a number. *)
Lemma filteredAndSorted_stable (st : State) (P : Transaction -> bool) :
  Forall (sortKeyValid host (sortField st)) (filtered host st) ->
  (forall x y, P x = true -> P y = true ->
     JS.SortCompare (comparator host (sortField st) (sortOrder st)) x y = Eq) ->
  filter P (filteredAndSortedTransactions host st) = filter P (filtered host st).
Proof.
  unfold filteredAndSortedTransactions.
  destruct (sortField st); intros Hvalid HP.
  - exact (keyed_sort_stable
             (fun tx => JS.getTime (JS.newDate host (timestamp tx)))
             (fun tx => onGrid_getTime _)
             (sortOrder st) P _ Hvalid HP).
  - exact (keyed_sort_stable (fun tx => JS.parseFloat (amount tx))
                             (fun tx => onGrid_parseFloat _)
                             (sortOrder st) P _ Hvalid HP).
  - apply (sort_stable _ (fun _ => True) (statusOrdered (sortOrder st)));
      [| | | | |exact HP|apply Forall_forall; auto].
    + intros x y _ _. apply status_gt.
    + intros x y _ _. apply status_le.
    + intros x y _ _. apply status_eq.
    + intros x y z _ _ _. apply status_trans.
    + intros x y _ _. apply status_strict.
Qed.
End StatusSort.

(** C6, as amended.  When every listed row has a sort key that is a number
    (a valid timestamp under a sort by date, an amount that parses under a
    sort by amount), two transactions that the comparator reports as equal
    appear in the sorted list in the order they have in the filtered list,
    under either sort order and for every sort field. *)
Theorem sort_stable_valid_keys (host : JS.Host) (st : State) (a b : Transaction) :
  Forall (sortKeyValid host (sortField st)) (filtered host st) ->
  JS.SortCompare (comparator host (sortField st) (sortOrder st)) a b = Eq ->
  filter (fun t => Transaction_eqb t a || Transaction_eqb t b)%bool
         (filteredAndSortedTransactions host st)
  = filter (fun t => Transaction_eqb t a || Transaction_eqb t b)%bool
           (filtered host st).
Proof.
  intros Hvalid Hab. apply filteredAndSorted_stable; [exact Hvalid|].
  intros x y Hx Hy.
  assert (Hba : JS.SortCompare (comparator host (sortField st) (sortOrder st)) b a
                = Eq)
    by (rewrite comparator_antisym, Hab; reflexivity).
  apply orb_true_iff in Hx, Hy.
  destruct Hx as [Hx|Hx], Hy as [Hy|Hy];
    apply Transaction_eqb_eq in Hx, Hy; subst;
    rewrite ?comparator_refl, ?Hab, ?Hba; reflexivity.
Qed.

Lemma sort_stable_valid_keys_witness :
  filter (fun t => Transaction_eqb t Sample.first2
                   || Transaction_eqb t Sample.last2)%bool
         (filteredAndSortedTransactions
            Sample.host (Sample.sortedBy Sample.three SortField.amount desc))
  = [Sample.first2; Sample.last2].
Proof.
  rewrite (sort_stable_valid_keys
             Sample.host (Sample.sortedBy Sample.three SortField.amount desc)
             Sample.first2 Sample.last2).
  - vm_compute. reflexivity.
  - repeat constructor.
  - vm_compute. reflexivity.
Defined.

(** C6, as stated, fails.  Amounts that are not numbers among the rows
    break the order of rows with equal amounts: of the sixth and the
    seventh row, both of amount 1, the seventh comes out first. *)
Lemma equal_amounts_change_places :
  filteredAndSortedTransactions
    Sample.host (Sample.sortedBy Sample.seven SortField.amount asc)
  = [Sample.tx "1" "abc" confirmed; Sample.tx "2" "abc" confirmed;
     Sample.fourth; Sample.seventh; Sample.tx "3" "2" confirmed;
     Sample.tx "5" "abc" confirmed; Sample.sixth]
  /\ JS.SortCompare (comparator Sample.host SortField.amount asc)
                    Sample.sixth Sample.seventh = Eq
  /\ filter (fun t => Transaction_eqb t Sample.sixth
                      || Transaction_eqb t Sample.seventh)%bool
            (filteredAndSortedTransactions
               Sample.host (Sample.sortedBy Sample.seven SortField.amount asc))
     = [Sample.seventh; Sample.sixth]
  /\ filter (fun t => Transaction_eqb t Sample.sixth
                      || Transaction_eqb t Sample.seventh)%bool
            (filtered Sample.host
               (Sample.sortedBy Sample.seven SortField.amount asc))
     = [Sample.sixth; Sample.seventh].
Proof. repeat split; vm_compute; reflexivity. Qed.

(** C2, as amended.  Sorting by amount compares the parsed amounts
    numerically: when every amount left by the filters parses, the output is
    in numeric order (ascending or descending).  An amount that does not
    parse is not read as zero: the comparator returns NaN for it against any
    other row, which the sort takes as "equal". *)
Theorem amount_sort_numeric (host : JS.Host) (st : State) :
  sortField st = SortField.amount ->
  (Forall amountParses (filtered host st) ->
   StronglySorted (amountOrdered (sortOrder st))
                  (filteredAndSortedTransactions host st))
  /\ Permutation (filteredAndSortedTransactions host st) (filtered host st)
  /\ (forall a b,
        JS.isNaN (JS.parseFloat (amount a)) = true
        \/ JS.isNaN (JS.parseFloat (amount b)) = true ->
        JS.SortCompare (comparator host (sortField st) (sortOrder st)) a b = Eq).
Proof.
  intros Hf. split; [|split].
  - intros Hparse. unfold filteredAndSortedTransactions. rewrite Hf.
    exact (keyed_sort_sorted (fun tx => JS.parseFloat (amount tx))
                             (fun tx => onGrid_parseFloat _)
                             (sortOrder st) _ Hparse).
  - apply filteredAndSorted_perm.
  - rewrite Hf. apply comparator_amount_NaN.
Qed.

Lemma amount_sort_numeric_witness :
  StronglySorted (amountOrdered asc)
    (filteredAndSortedTransactions
       Sample.host (Sample.sortedBy Sample.scenario SortField.amount asc)).
Proof.
  apply (amount_sort_numeric
           Sample.host (Sample.sortedBy Sample.scenario SortField.amount asc)
           eq_refl).
  repeat constructor.
Defined.

(** C2, as stated, fails: an unparseable amount is compared as equal to 5,
    not as 0, and so stays behind it in an ascending sort; the comparison the
    specification describes would put it first. *)
Lemma unparseable_amount_not_zero :
  filteredAndSortedTransactions
    Sample.host
    (Sample.sortedBy [Sample.five; Sample.bad] SortField.amount asc)
  = [Sample.five; Sample.bad]
  /\ JS.sort (Spec.amountComparator asc) [Sample.five; Sample.bad]
     = [Sample.bad; Sample.five]
  /\ JS.SortCompare (comparator Sample.host SortField.amount asc)
                    Sample.five Sample.bad = Eq
  /\ JS.SortCompare (Spec.amountComparator asc) Sample.five Sample.bad = Gt.
Proof. vm_compute. repeat split. Qed.

Section FilterFacts.
Variable host : JS.Host.

Lemma bySearch_empty (l : list Transaction) : bySearch EmptyString l = l.
Proof. reflexivity. Qed.

Lemma bySearch_nonempty (q : string) (l : list Transaction) :
  q <> EmptyString -> bySearch q l = filter (matchesQuery (JS.toLowerCase q)) l.
Proof. destruct q; [congruence|reflexivity]. Qed.

Lemma bySearch_incl (q : string) (l : list Transaction) (tx : Transaction) :
  In tx (bySearch q l) -> In tx l.
Proof.
  unfold bySearch. destruct (truthy q); [|auto].
  intros H. now apply filter_In in H.
Qed.

Lemma byDateTo_incl (d : string) (l : list Transaction) (tx : Transaction) :
  In tx (byDateTo host d l) -> In tx l.
Proof.
  unfold byDateTo. destruct (truthy d); [|auto].
  intros H. now apply filter_In in H.
Qed.

Lemma geb_getTime_valid (d : JS.Date) (y : JS.number) :
  JS.geb (JS.getTime d) y = true -> d <> None.
Proof. destruct d; simpl; congruence. Qed.

Lemma leb_getTime_valid (d : JS.Date) (y : JS.number) :
  JS.leb (JS.getTime d) y = true -> d <> None.
Proof. destruct d; [congruence|]. unfold JS.leb. now destruct y. Qed.

(** A row with an unparseable timestamp passes neither date filter. *)
Lemma dated_rows_valid (st : State) (tx : Transaction) :
  truthy (dateFrom st) = true \/ truthy (dateTo st) = true ->
  In tx (beforeSearch host st) ->
  JS.newDate host (timestamp tx) <> None.
Proof.
  unfold beforeSearch. intros [H|H] Hin.
  - apply byDateTo_incl in Hin. unfold byDateFrom in Hin. rewrite H in Hin.
    apply filter_In in Hin. destruct Hin as [_ Hin].
    now apply geb_getTime_valid in Hin.
  - unfold byDateTo in Hin. rewrite H in Hin.
    apply filter_In in Hin. destruct Hin as [_ Hin].
    now apply leb_getTime_valid in Hin.
Qed.
End FilterFacts.

(** C4, as amended.  The search text is used as typed, without trimming.  The
    empty text leaves the rows as they are; any other text, white space
    included, keeps exactly the rows whose lower-cased hash, sender or
    recipient contains the lower-cased text. *)
Theorem search_stage (host : JS.Host) (st : State) :
  (debouncedSearch st = EmptyString ->
   filteredAndSortedTransactions host st
   = JS.sort (comparator host (sortField st) (sortOrder st))
             (beforeSearch host st))
  /\ (debouncedSearch st <> EmptyString ->
      forall tx,
        In tx (filteredAndSortedTransactions host st)
        <-> In tx (beforeSearch host st)
            /\ (JS.includes (JS.toLowerCase (hash tx))
                            (JS.toLowerCase (debouncedSearch st)) = true
                \/ JS.includes (JS.toLowerCase (fromAddress tx))
                               (JS.toLowerCase (debouncedSearch st)) = true
                \/ JS.includes (JS.toLowerCase (toAddress tx))
                               (JS.toLowerCase (debouncedSearch st)) = true)).
Proof.
  unfold filteredAndSortedTransactions, filtered. split.
  - intros ->. reflexivity.
  - intros Hq tx. rewrite sort_In, bySearch_nonempty by exact Hq.
    rewrite filter_In. unfold matchesQuery. rewrite !orb_true_iff. tauto.
Qed.

Lemma search_stage_witness :
  In (Sample.tx "1" "5" confirmed)
     (filteredAndSortedTransactions
        Sample.host (Sample.searching [Sample.five; Sample.bad] "0xABC1")).
Proof.
  apply (proj2 (search_stage
                  Sample.host
                  (Sample.searching [Sample.five; Sample.bad] "0xABC1"))).
  - discriminate.
  - split; [left; reflexivity|]. left. vm_compute. reflexivity.
Defined.

(** C4, as stated, fails: a search text of one space is empty after trimming,
    yet it is matched against the rows and removes the row that an empty
    search text keeps. *)
Lemma whitespace_query_is_matched :
  Spec.emptyAfterTrim " " = true
  /\ filteredAndSortedTransactions
       Sample.host (Sample.searching [Sample.five] " ") = []
  /\ filteredAndSortedTransactions
       Sample.host (Sample.searching [Sample.five] EmptyString) = [Sample.five].
Proof. vm_compute. repeat split. Qed.

Lemma slice_incl {A : Type} (l : list A) (start stop : Z) (x : A) :
  In x (JS.slice l start stop) -> In x l.
Proof.
  unfold JS.slice. intros H.
  set (k := Z.to_nat _) in H. set (n := Z.to_nat _) in H.
  rewrite <- (firstn_skipn n l). apply in_or_app. right.
  rewrite <- (firstn_skipn k (skipn n l)). apply in_or_app. now left.
Qed.

(** C7, as amended.  The derivation is a total function of the state: for
    every list of rows, malformed ones included, it yields rows of the input,
    none invented; a row whose timestamp does not parse is left out whenever
    a date bound is set; and a row whose amount does not parse compares as
    equal to every row in a sort by amount (its amount is not read as zero). *)
Theorem pipeline_total (host : JS.Host) (itemsPerPage : Z) (st : State) :
  (exists rows, paginatedTransactions host itemsPerPage st = rows
                /\ forall tx, In tx rows -> In tx (transactions st))
  /\ Permutation (filteredAndSortedTransactions host st) (filtered host st)
  /\ (truthy (dateFrom st) = true \/ truthy (dateTo st) = true ->
      forall tx, In tx (filteredAndSortedTransactions host st) ->
                 JS.newDate host (timestamp tx) <> None)
  /\ (forall o a b,
        JS.isNaN (JS.parseFloat (amount a)) = true ->
        JS.SortCompare (comparator host SortField.amount o) a b = Eq
        /\ JS.SortCompare (comparator host SortField.amount o) b a = Eq).
Proof.
  split; [|split; [|split]].
  - eexists. split; [reflexivity|]. intros tx Hin.
    apply slice_incl in Hin. apply sort_In in Hin.
    now apply filtered_incl in Hin.
  - apply filteredAndSorted_perm.
  - intros Hd tx Hin. apply sort_In in Hin. apply bySearch_incl in Hin.
    now apply (dated_rows_valid host st).
  - intros o a b Ha. split; apply comparator_amount_NaN; auto.
Qed.

Lemma pipeline_total_witness :
  JS.SortCompare (comparator Sample.host SortField.amount desc)
                 Sample.unknown Sample.minus3 = Eq.
Proof.
  apply (proj2 (proj2 (proj2 (pipeline_total
                                Sample.host 15
                                (Sample.showing Sample.sixteen 1))))
           desc Sample.unknown Sample.minus3).
  reflexivity.
Defined.

(** C7, as stated, fails in its "zero for numeric comparisons": in a
    descending sort by amount the row with amount [n/a] compares as equal to
    the row with amount [-3] and stays behind it, where an amount of zero
    would compare greater and come first. *)
Lemma unparseable_amount_not_zero_desc :
  JS.SortCompare (comparator Sample.host SortField.amount desc)
                 Sample.minus3 Sample.unknown = Eq
  /\ JS.SortCompare (Spec.amountComparator desc) Sample.minus3 Sample.unknown
     = Gt
  /\ filteredAndSortedTransactions
       Sample.host
       (Sample.sortedBy [Sample.minus3; Sample.unknown] SortField.amount desc)
     = [Sample.minus3; Sample.unknown]
  /\ JS.sort (Spec.amountComparator desc) [Sample.minus3; Sample.unknown]
     = [Sample.unknown; Sample.minus3].
Proof. vm_compute. repeat split. Qed.

(** * The transactions page: events *)

Section EventFacts.
Variable host : JS.Host.
Variable itemsPerPage : Z.

Lemma handleSort_page (f : SortField.t) (st : State) :
  currentPage (step host itemsPerPage st (HandleSort f)) = 1.
Proof. reflexivity. Qed.

Lemma clearFilters_page (st : State) :
  currentPage (step host itemsPerPage st ClearFilters) = 1.
Proof. reflexivity. Qed.

(** The search text the rows are filtered by only changes when the timer
    fires, and the page is reset with it. *)
Lemma debouncedSearch_page (st : State) (e : Event) :
  debouncedSearch (step host itemsPerPage st e) <> debouncedSearch st ->
  currentPage (step host itemsPerPage st e) = 1.
Proof.
  destruct e; simpl; try congruence; try reflexivity.
  - unfold setSearchQuery. destruct (String.eqb _ _); simpl; congruence.
  - unfold debounceTimeout. destruct (timerPending st); simpl; congruence.
  - destruct (_ =? _); simpl; congruence.
  - destruct (_ =? _); simpl; congruence.
Qed.

Lemma selectStatus_page (v : string) (st : State) :
  currentPage (step host itemsPerPage st (SelectStatus v)) = currentPage st.
Proof. reflexivity. Qed.

Lemma dateInput_page (v : string) (st : State) :
  currentPage (step host itemsPerPage st (DateFromInput v)) = currentPage st
  /\ currentPage (step host itemsPerPage st (DateToInput v)) = currentPage st.
Proof. split; reflexivity. Qed.
End EventFacts.

(** C3 does not hold of the code.  On page 2 of seventeen rows, choosing the
    status "pending" changes the status filter and leaves the page at 2,
    beyond the single page of results, so the one pending row is not shown;
    setting a date bound leaves the page at 2 as well.  Sorting, clearing the
    filters and the debounced search do reset the page. *)
Theorem status_or_date_change_keeps_page :
  statusFilter (step Sample.host 15 (Sample.showing Sample.mixed 2)
                     (SelectStatus "pending")) = "pending"
  /\ currentPage (step Sample.host 15 (Sample.showing Sample.mixed 2)
                       (SelectStatus "pending")) = 2
  /\ totalPages Sample.host 15
                (step Sample.host 15 (Sample.showing Sample.mixed 2)
                      (SelectStatus "pending")) = 1
  /\ paginatedTransactions Sample.host 15
                           (step Sample.host 15 (Sample.showing Sample.mixed 2)
                                 (SelectStatus "pending")) = []
  /\ filteredAndSortedTransactions Sample.host
                                   (step Sample.host 15
                                         (Sample.showing Sample.mixed 2)
                                         (SelectStatus "pending"))
     = [Sample.waiting]
  /\ currentPage (step Sample.host 15 (Sample.showing Sample.mixed 2)
                       (DateFromInput "2024-01-01")) = 2
  /\ currentPage (step Sample.host 15 (Sample.showing Sample.mixed 2)
                       (DateToInput "2024-12-31")) = 2
  /\ currentPage (step Sample.host 15 (Sample.showing Sample.mixed 2)
                       (HandleSort SortField.amount)) = 1.
Proof. vm_compute. repeat split. Qed.

(** * CSV export *)

Section CsvFacts.
Import Csv.

Lemma test_class_contains (value : string) :
  JS.test_class [DQUOTE; ","%char; LF] value
  = (contains ","%char value || contains DQUOTE value || contains LF value)%bool.
Proof.
  induction value as [|d value IH]; simpl; [reflexivity|].
  rewrite IH.
  destruct (Ascii.eqb d DQUOTE), (Ascii.eqb d ","), (Ascii.eqb d LF),
    (contains "," value), (contains DQUOTE value), (contains LF value);
    reflexivity.
Qed.

Lemma replaceAll_doubled (value : string) :
  JS.replaceAll DQUOTE (str DQUOTE ++ str DQUOTE) value = doubled value.
Proof.
  induction value as [|d value IH]; simpl; [reflexivity|].
  rewrite IH. now destruct (Ascii.eqb d DQUOTE).
Qed.

Lemma doubled_without_quotes (value : string) :
  contains DQUOTE value = false -> doubled value = value.
Proof.
  induction value as [|d value IH]; simpl; [reflexivity|].
  destruct (Ascii.eqb d DQUOTE); simpl; [discriminate|].
  intros H. now rewrite IH.
Qed.

(** [escapeCsv] follows the specification's escaping rule. *)
Lemma escapeCsv_spec (value : string) : escapeCsv value = spec_field value.
Proof.
  unfold escapeCsv, spec_field.
  rewrite test_class_contains, replaceAll_doubled.
  destruct (contains "," value), (contains LF value),
    (contains DQUOTE value) eqn:E; simpl; try reflexivity.
  now apply doubled_without_quotes.
Qed.

Lemma vals_spec (r : Transaction) : JS.join "," (vals r) = spec_row r.
Proof.
  unfold vals, spec_row. simpl map. rewrite !escapeCsv_spec.
  destruct (gasLimit r), (gasPrice r); reflexivity.
Qed.

Lemma push_lines {A : Type} (f : A -> string) (rows : list A)
      (lines : list string) :
  fold_left (fun lines r => (lines ++ [f r])%list) rows lines
  = (lines ++ map f rows)%list.
Proof.
  revert lines. induction rows as [|r rows IH]; intros lines; simpl.
  - now rewrite app_nil_r.
  - rewrite IH, <- app_assoc. reflexivity.
Qed.
End CsvFacts.

(** C8.  The export is the fixed header line followed by one line per
    transaction, the lines separated by a newline; each line holds the nine
    columns in the header's order, every value escaped by the rule of the
    specification, a missing gas limit or gas price giving an empty field. *)
Theorem transactionsToCsv_spec (rows : list Transaction) :
  Csv.transactionsToCsv rows
  = JS.join (Csv.str Csv.LF) (Csv.spec_header :: map Csv.spec_row rows).
Proof.
  unfold Csv.transactionsToCsv. rewrite push_lines.
  f_equal. simpl app. f_equal. apply map_ext. exact vals_spec.
Qed.

(** * Theme storage *)

Module ThemeFacts.
Import stdpp.gmap stdpp.strings.
Import Theme.

Lemma getStoredTheme_of_string (t : Theme.Theme) (env : Env) :
  window_defined env = true ->
  localStorage env !! THEME_KEY = Some (Theme_toString t) ->
  getStoredTheme env = Some t.
Proof.
  intros Hw Hs. unfold getStoredTheme. rewrite Hw, Hs. now destruct t.
Qed.

(** C9, as amended.  Where [window] and [document] are defined, the theme
    read back after [applyTheme t] is [t]; and in every environment
    [getStoredTheme] returns null when the stored value is neither "light"
    nor "dark" (or there is none). *)
Theorem theme_round_trip (t : Theme.Theme) (env : Env) :
  (window_defined env = true /\ document_defined env = true ->
   getStoredTheme (applyTheme t env) = Some t)
  /\ (localStorage env !! THEME_KEY <> Some "light" /\
      localStorage env !! THEME_KEY <> Some "dark" ->
      getStoredTheme env = None).
Proof.
  split.
  - intros [Hw Hd]. apply getStoredTheme_of_string.
    + unfold applyTheme. now rewrite Hd.
    + unfold applyTheme. rewrite Hd. simpl. apply lookup_insert_eq.
  - intros [Hl Hk]. unfold getStoredTheme.
    destruct (window_defined env); [|reflexivity]. simpl.
    destruct (localStorage env !! THEME_KEY) as [s|]; [|reflexivity].
    destruct (String.eqb_spec s "dark") as [->|_]; [congruence|].
    destruct (String.eqb_spec s "light") as [->|_]; [congruence|].
    reflexivity.
Qed.

Lemma theme_round_trip_witness :
  getStoredTheme (applyTheme dark browser) = Some dark.
Proof.
  apply (proj1 (theme_round_trip dark browser)). split; reflexivity.
Defined.

(** C9, as stated, fails where [document] is not defined: [applyTheme]
    returns at its guard without storing, and nothing is read back. *)
Lemma theme_not_stored_on_server :
  applyTheme dark server = server
  /\ getStoredTheme (applyTheme dark server) = None.
Proof. split; reflexivity. Qed.

End ThemeFacts.

(** * Rendering of numbers *)

Section RenderFacts.
Import JS.

Lemma every_app (P : ascii -> bool) (a b : string) :
  every P (a ++ b) = (every P a && every P b)%bool.
Proof.
  induction a as [|c a IH]; simpl; [reflexivity|].
  now rewrite IH, andb_assoc.
Qed.

Lemma every_impl (P Q : ascii -> bool) (s : string) :
  (forall c, P c = true -> Q c = true) -> every P s = true -> every Q s = true.
Proof.
  intros HPQ. induction s as [|c s IH]; simpl; [reflexivity|].
  rewrite !andb_true_iff. intros [H1 H2]. auto.
Qed.

Lemma every_take (P : ascii -> bool) (n : nat) (s : string) :
  every P s = true -> every P (take n s) = true.
Proof.
  revert s. induction n as [|n IH]; intros [|c s]; simpl; try reflexivity.
  rewrite !andb_true_iff. intros [H1 H2]. auto.
Qed.

Lemma every_drop (P : ascii -> bool) (n : nat) (s : string) :
  every P s = true -> every P (drop n s) = true.
Proof.
  revert s. induction n as [|n IH]; intros [|c s]; simpl; auto.
  rewrite !andb_true_iff. intros [H1 H2]. auto.
Qed.

Lemma every_zeros (n : nat) : every is_digit (zeros n) = true.
Proof. induction n; simpl; auto. Qed.

Lemma every_strip (P : ascii -> bool) (s : string) :
  every P s = true -> every P (strip_trailing_zeros s) = true.
Proof.
  induction s as [|c s IH]; simpl; [reflexivity|].
  rewrite andb_true_iff. intros [H1 H2].
  destruct (is_empty _ && _)%bool; simpl; [reflexivity|].
  now rewrite H1, IH.
Qed.

Lemma every_string_of_uint (d : Decimal.uint) :
  every is_digit (NilEmpty.string_of_uint d) = true.
Proof. induction d; simpl; auto. Qed.

Lemma every_decimal (n : Z) : every is_digit (decimal n) = true.
Proof.
  unfold decimal, NilZero.string_of_uint.
  destruct (N.to_uint (Z.to_N n)); try reflexivity;
    apply every_string_of_uint.
Qed.
End RenderFacts.

Section ToFixedFacts.
Import JS.

Lemma digit_other_than (c d : ascii) :
  is_digit c = false -> is_digit d = true -> other_than c d = true.
Proof.
  intros Hc Hd. unfold other_than.
  destruct (Ascii.eqb_spec d c) as [->|_]; [congruence|reflexivity].
Qed.

Lemma every_digits_other_than (c : ascii) (s : string) :
  is_digit c = false -> every is_digit s = true ->
  every (other_than c) s = true.
Proof.
  intros Hc. apply every_impl. intros d. now apply digit_other_than.
Qed.

Lemma every_padded (n : Z) (f : nat) : every is_digit (padded n f) = true.
Proof.
  unfold padded. destruct (Nat.leb _ _); [|apply every_decimal].
  now rewrite every_app, every_zeros, every_decimal.
Qed.

Lemma length_zeros (n : nat) : String.length (zeros n) = n.
Proof. induction n; simpl; auto. Qed.

Lemma length_append (a b : string) :
  String.length (a ++ b) = (String.length a + String.length b)%nat.
Proof. induction a as [|c a IH]; simpl; auto. Qed.

Lemma length_padded (n : Z) (f : nat) : (f < String.length (padded n f))%nat.
Proof.
  unfold padded. destruct (Nat.leb_spec (String.length (decimal n)) f).
  - rewrite length_append, length_zeros. lia.
  - assumption.
Qed.

Lemma length_drop (n : nat) (s : string) :
  String.length (drop n s) = (String.length s - n)%nat.
Proof.
  revert s. induction n as [|n IH]; intros [|c s]; simpl; auto.
Qed.

(** The shape of the result for a finite value below [10^21]. *)
Lemma toFixed_finite (q : Q) (f : nat) :
  Qle_bool (inject_Z (10 ^ 21)) (Qabs q) = false ->
  toFixed (Finite q) (S f)
  = let m := padded (Qfloor (Qabs q * inject_Z (10 ^ Z.of_nat (S f)) + (1 # 2)))
                    (S f) in
    (match Qsign q with Lt => "-" | _ => EmptyString end)
      ++ take (String.length m - S f) m ++ "." ++ drop (String.length m - S f) m.
Proof. intros H. unfold toFixed, padded. rewrite H. reflexivity. Qed.

Lemma every_exponential (c : ascii) (x : Q) :
  is_digit c = false -> other_than c "." = true -> other_than c "e" = true ->
  other_than c "+" = true ->
  every (other_than c) (toString_exponential x) = true.
Proof.
  intros Hc Hdot He Hplus. unfold toString_exponential.
  destruct (shortest _ _) as [s p].
  pose proof (every_digits_other_than c _ Hc (every_decimal s)) as Hds.
  apply every_strip in Hds.
  pose proof (every_digits_other_than
                c _ Hc
                (every_decimal
                   (Z.of_nat (String.length (decimal s)) + p - 1)))
    as Hexp.
  assert (Hep : every (other_than c) "e+" = true)
    by (cbn [every]; now rewrite He, Hplus).
  assert (Hpt : every (other_than c) "." = true)
    by (cbn [every]; now rewrite Hdot).
  destruct (strip_trailing_zeros _) as [|d [|d' r]]; [reflexivity| |];
    cbn [every] in Hds |- *; rewrite ?andb_true_iff in Hds.
  - destruct Hds as [-> _]. now rewrite every_app, Hep, Hexp.
  - destruct Hds as [-> [Hd' Hr]].
    rewrite !every_app, Hpt, Hep, Hexp. cbn [every]. now rewrite Hd', Hr.
Qed.

Lemma every_toFixed_finite (c : ascii) (q : Q) (f : nat) :
  is_digit c = false -> other_than c "." = true -> other_than c "e" = true ->
  other_than c "+" = true -> other_than c "-" = true ->
  every (other_than c) (toFixed (Finite q) f) = true.
Proof.
  intros Hc Hdot He Hplus Hminus. unfold toFixed. rewrite every_app.
  apply andb_true_iff. split.
  - destruct (Qsign q); simpl; rewrite ?Hminus; reflexivity.
  - destruct (Qle_bool _ _); [now apply every_exponential|].
    destruct f as [|f].
    + apply every_digits_other_than; [assumption|apply every_decimal].
    + fold (padded (Qfloor (Qabs q * inject_Z (10 ^ Z.of_nat (S f)) + (1 # 2)))
                   (S f)).
      pose proof (every_digits_other_than c _ Hc (every_padded
        (Qfloor (Qabs q * inject_Z (10 ^ Z.of_nat (S f)) + (1 # 2))) (S f)))
        as Hm.
      assert (Hpt : every (other_than c) "." = true)
        by (cbn [every]; now rewrite Hdot).
      rewrite !every_app, Hpt, every_take, every_drop by exact Hm.
      reflexivity.
Qed.

(** [toFixed] never prints the text the fee falls back to. *)
Lemma toFixed_not_NA (x : number) (f : nat) : toFixed x f <> "N/A".
Proof.
  destruct x as [|[]|q]; try discriminate.
  intros H.
  pose proof (every_toFixed_finite "/" q f eq_refl eq_refl eq_refl eq_refl
                                   eq_refl) as He.
  rewrite H in He. discriminate He.
Qed.

Lemma decimalPlaces_skip (a b : string) :
  every (other_than ".") a = true ->
  Spec.decimalPlaces (a ++ b) = Spec.decimalPlaces b.
Proof.
  induction a as [|c a IH]; simpl; [reflexivity|].
  unfold other_than at 1. destruct (Ascii.eqb c "."); simpl; [discriminate|].
  exact IH.
Qed.

(** Below [10^21] the result has exactly the requested fraction digits. *)
Lemma decimalPlaces_toFixed (q : Q) (f : nat) :
  Qle_bool (inject_Z (10 ^ 21)) (Qabs q) = false ->
  Spec.decimalPlaces (toFixed (Finite q) (S f)) = Some (S f).
Proof.
  intros H. rewrite (toFixed_finite q f H). cbv zeta.
  set (m := padded _ _).
  assert (Hm : every (other_than ".") m = true)
    by (apply every_digits_other_than; [reflexivity|apply every_padded]).
  rewrite decimalPlaces_skip
    by (destruct (Qsign q); reflexivity).
  rewrite decimalPlaces_skip by (now apply every_take).
  change (Spec.decimalPlaces ("." ++ drop (String.length m - S f) m))
    with (Some (String.length (drop (String.length m - S f) m))).
  rewrite length_drop. f_equal.
  pose proof (length_padded
                (Qfloor (Qabs q * inject_Z (10 ^ Z.of_nat (S f)) + (1 # 2)))
                (S f)).
  fold m in H0. lia.
Qed.
End ToFixedFacts.

(** * Transaction details *)

Section FeeFacts.
Import JS.

Lemma mul_NaN_l (y : number) : mul NaN y = NaN.
Proof. reflexivity. Qed.

Lemma mul_NaN_r (x : number) : mul x NaN = NaN.
Proof. now destruct x. Qed.

Lemma not__parseFloat (v : option string) :
  Details.not_ v = true -> Details.parseFloat v = NaN.
Proof. destruct v as [[|c s]|]; simpl; try discriminate; reflexivity. Qed.

Lemma not__fee (tx : Transaction) :
  (Details.not_ (gasLimit tx) || Details.not_ (gasPrice tx))%bool = true ->
  Details.fee tx = NaN.
Proof.
  unfold Details.fee. intros H. apply orb_true_iff in H.
  destruct H as [H|H]; rewrite (not__parseFloat _ H);
    [apply mul_NaN_l|apply mul_NaN_r].
Qed.
End FeeFacts.

(** C10, as amended.  [calculateFee] is total; it returns "N/A" exactly when
    the gas limit is absent, the gas price is absent, or the product of their
    parses is NaN; otherwise it returns the product as [toFixed(8)] prints
    it, which has eight decimal places when the product is finite and below
    [10^21] in magnitude. *)
Theorem calculateFee_spec (tx : Transaction) :
  (Details.calculateFee tx = "N/A"
   <-> gasLimit tx = None \/ gasPrice tx = None
       \/ JS.isNaN (Details.fee tx) = true)
  /\ (Details.calculateFee tx = "N/A"
      \/ Details.calculateFee tx = JS.toFixed (Details.fee tx) 8)
  /\ (forall q, Details.fee tx = JS.Finite q ->
                (Qabs q < inject_Z (10 ^ 21))%Q ->
                Spec.decimalPlaces (Details.calculateFee tx) = Some 8%nat).
Proof.
  unfold Details.calculateFee.
  destruct (Details.not_ (gasLimit tx) || Details.not_ (gasPrice tx))%bool eqn:E.
  - pose proof (not__fee tx E) as Hfee. rewrite Hfee.
    split; [|split].
    + split; auto.
    + now left.
    + intros q Hq. discriminate Hq.
  - destruct (JS.isNaN (Details.fee tx)) eqn:Hn.
    + split; [|split].
      * split; auto.
      * now left.
      * intros q Hq. rewrite Hq in Hn. discriminate Hn.
    + split; [|split].
      * split.
        -- intros H. exfalso. exact (toFixed_not_NA _ _ H).
        -- apply orb_false_iff in E. destruct E as [E1 E2].
           intros [H|[H|H]]; [rewrite H in E1|rewrite H in E2|];
             discriminate.
      * now right.
      * intros q Hq Hlt. rewrite Hq. apply decimalPlaces_toFixed.
        destruct (Qle_bool _ _) eqn:Hle; [|reflexivity].
        apply Qle_bool_iff in Hle. exfalso. exact (Qlt_not_le _ _ Hlt Hle).
Qed.

Lemma calculateFee_spec_witness :
  Spec.decimalPlaces (Details.calculateFee (Sample.withGas "21000" "0.00000002"))
  = Some 8%nat.
Proof.
  eapply (proj2 (proj2 (calculateFee_spec
                          (Sample.withGas "21000" "0.00000002")))).
  - vm_compute. reflexivity.
  - vm_compute. reflexivity.
Defined.

(** C10, as stated, fails in its last part: an infinite product is printed as
    the word Infinity, and a product of [10^21] in exponential notation,
    neither with eight decimal places. *)
Lemma large_fee_has_no_decimal_places :
  Details.calculateFee (Sample.withGas "Infinity" "1") = "Infinity"
  /\ Spec.decimalPlaces
       (Details.calculateFee (Sample.withGas "Infinity" "1")) = None
  /\ Details.calculateFee (Sample.withGas "1e21" "1") = "1e+21"
  /\ Spec.decimalPlaces (Details.calculateFee (Sample.withGas "1e21" "1"))
     = None.
Proof. vm_compute. repeat split. Qed.

(** Fees and amounts are binary64 values.  A gas limit beyond the largest
    finite value is an infinity, whose product with zero is NaN; twenty-one
    nines round to [10^21]; the value nearest to 0.000000015 lies below it
    and prints rounded down. *)
Example fee_rounds_as_binary64 :
  Details.calculateFee (Sample.withGas "1e1000" "0") = "N/A"
  /\ Details.calculateFee (Sample.withGas "999999999999999999999" "1")
     = "1e+21"
  /\ Details.calculateFee (Sample.withGas "0.000000015" "1") = "0.00000001"
  /\ Details.calculateFee (Sample.withGas "21000" "0.00000002")
     = "0.00042000"
  /\ Details.calculateFee (Sample.withGas "1180591620717411303424" "1")
     = "1.1805916207174113e+21".
Proof. vm_compute. repeat split. Qed.

Example parseFloat_rounds_as_binary64 :
  JS.parseFloat "9007199254740993" = JS.parseFloat "9007199254740992"
  /\ JS.parseFloat "1e400" = JS.Infinity false
  /\ JS.parseFloat "1.7976931348623157e308"
     = JS.of_Z (2 ^ 1024 - 2 ^ 971)
  /\ JS.sign (JS.parseFloat "5e-324") = Gt
  /\ JS.sign (JS.parseFloat "1e-400") = Eq
  /\ Form.amountValid "1e-400" = false
  /\ JS.toFixed (JS.mul (JS.parseFloat "0.1") (JS.parseFloat "3")) 20
     = "0.30000000000000004441".
Proof. vm_compute. repeat split. Qed.

(** Two amounts that differ only beyond the precision of a binary64 value
    compare as equal, and keep their order in a sort by amount. *)
Example amounts_equal_in_binary64 :
  JS.SortCompare (comparator Sample.host SortField.amount asc)
                 (Sample.tx "1" "9007199254740993" confirmed)
                 (Sample.tx "2" "9007199254740992" confirmed) = Eq
  /\ filteredAndSortedTransactions
       Sample.host
       (Sample.sortedBy [Sample.tx "1" "9007199254740993" confirmed;
                         Sample.tx "2" "9007199254740992" confirmed]
                        SortField.amount asc)
     = [Sample.tx "1" "9007199254740993" confirmed;
        Sample.tx "2" "9007199254740992" confirmed].
Proof. vm_compute. split; reflexivity. Qed.

(** * The scenarios of the specification, evaluated *)

Example scenario_amount_ascending :
  map id (filteredAndSortedTransactions
            Sample.host (Sample.sortedBy Sample.scenario SortField.amount asc))
  = ["2"; "1"]
  /\ totalPages Sample.host 15
                (Sample.sortedBy Sample.scenario SortField.amount asc) = 1
  /\ showingFrom Sample.host 15
                 (Sample.sortedBy Sample.scenario SortField.amount asc) = 1
  /\ showingTo Sample.host 15
               (Sample.sortedBy Sample.scenario SortField.amount asc) = 2.
Proof. vm_compute. repeat split. Qed.

Example scenario_search_ignores_case :
  matchesQuery (JS.toLowerCase "0xabc")
               (mkTransaction "1" "0xABCdef" "0xfrom" "0xto" "1" confirmed
                              None None "2024-01-15T10:00:00Z") = true
  /\ matchesQuery (JS.toLowerCase "0xabc")
                  (mkTransaction "2" "0xdead" "0xdead" "0xdead" "1" confirmed
                                 None None "2024-01-15T10:00:00Z") = false.
Proof. vm_compute. split; reflexivity. Qed.

Example scenario_csv_comma :
  Csv.escapeCsv "0x,test" = Csv.str Csv.DQUOTE ++ "0x,test" ++ Csv.str Csv.DQUOTE.
Proof. reflexivity. Qed.

Example scenario_csv_quotes :
  Csv.escapeCsv ("0x" ++ Csv.str Csv.DQUOTE ++ "quoted" ++ Csv.str Csv.DQUOTE)
  = Csv.str Csv.DQUOTE ++ "0x" ++ Csv.str Csv.DQUOTE ++ Csv.str Csv.DQUOTE
    ++ "quoted" ++ Csv.str Csv.DQUOTE ++ Csv.str Csv.DQUOTE ++ Csv.str Csv.DQUOTE.
Proof. reflexivity. Qed.

Example scenario_fee :
  Details.calculateFee (Sample.withGas "21000" "0.00000002") = "0.00042000"
  /\ Details.calculateFee Sample.five = "N/A"
  /\ Details.calculateFee (Sample.withGas "abc" "1") = "N/A".
Proof. vm_compute. repeat split. Qed.

(** * The transactions page: pages, ranges and the pager *)

Lemma ceil_div_zero (d : Z) : 0 < d -> JS.ceil_div 0 d = 0.
Proof. intros Hd. unfold JS.ceil_div. apply Z.div_small. lia. Qed.

Lemma slice_length_le {A : Type} (l : list A) (start n : Z) :
  0 <= n -> Z.of_nat (List.length (JS.slice l start (start + n))) <= n.
Proof.
  intros Hn. unfold JS.slice. rewrite length_firstn, length_skipn.
  destruct (Z.ltb_spec start 0), (Z.ltb_spec (start + n) 0); lia.
Qed.

Lemma slice_length_inside {A : Type} (l : list A) (start stop : Z) :
  0 <= start <= stop -> start <= Z.of_nat (List.length l) ->
  Z.of_nat (List.length (JS.slice l start stop))
  = Z.min stop (Z.of_nat (List.length l)) - start.
Proof.
  intros Hs Hl. unfold JS.slice. rewrite length_firstn, length_skipn.
  destruct (Z.ltb_spec start 0), (Z.ltb_spec stop 0); lia.
Qed.

(** X1.  The number of pages is the least that holds every listed row: the
    pages before the last do not hold them all, [totalPages] pages do. *)
Theorem totalPages_least (host : JS.Host) (itemsPerPage : Z) (st : State) :
  1 <= itemsPerPage ->
  (totalPages host itemsPerPage st - 1) * itemsPerPage
  < Z.of_nat (List.length (filteredAndSortedTransactions host st))
  <= totalPages host itemsPerPage st * itemsPerPage.
Proof.
  intros Hp. unfold totalPages. split.
  - apply ceil_div_tight. lia.
  - apply ceil_div_covers. lia.
Qed.

Lemma totalPages_least_witness :
  (totalPages Sample.host 15 (Sample.showing Sample.sixteen 1) - 1) * 15
  < Z.of_nat (List.length (filteredAndSortedTransactions
                             Sample.host (Sample.showing Sample.sixteen 1)))
  <= totalPages Sample.host 15 (Sample.showing Sample.sixteen 1) * 15.
Proof.
  apply (totalPages_least Sample.host 15 (Sample.showing Sample.sixteen 1)).
  lia.
Defined.

(** X2.  Whatever the page number, zero and negative ones included, a page
    never shows more than [itemsPerPage] rows. *)
Theorem page_never_longer (host : JS.Host) (itemsPerPage : Z) (st : State) :
  0 <= itemsPerPage ->
  Z.of_nat (List.length (paginatedTransactions host itemsPerPage st))
  <= itemsPerPage.
Proof.
  intros Hp. unfold paginatedTransactions. now apply slice_length_le.
Qed.

Lemma page_never_longer_witness :
  Z.of_nat (List.length (paginatedTransactions
                           Sample.host 15 (Sample.showing Sample.mixed (-1))))
  <= 15.
Proof.
  apply (page_never_longer Sample.host 15 (Sample.showing Sample.mixed (-1))).
  lia.
Defined.

(** X3.  On a page within [1, totalPages] the "Showing from-to of n" figures
    describe the rows shown: the page is not empty, it holds exactly
    [showingTo - showingFrom + 1] rows, and [1 <= showingFrom <= showingTo <= n].
    *)
Theorem showing_range_matches_page
        (host : JS.Host) (itemsPerPage : Z) (st : State) :
  1 <= itemsPerPage ->
  1 <= currentPage st <= totalPages host itemsPerPage st ->
  Z.of_nat (List.length (paginatedTransactions host itemsPerPage st))
  = showingTo host itemsPerPage st - showingFrom host itemsPerPage st + 1
  /\ 1 <= showingFrom host itemsPerPage st <= showingTo host itemsPerPage st
  /\ showingTo host itemsPerPage st
     <= Z.of_nat (List.length (filteredAndSortedTransactions host st)).
Proof.
  intros Hp Hc. unfold totalPages in Hc.
  unfold paginatedTransactions, showingFrom, showingTo in *.
  set (l := filteredAndSortedTransactions host st) in *.
  pose proof (ceil_div_tight (Z.of_nat (List.length l)) itemsPerPage
                             ltac:(lia)) as Ht.
  assert (Hstart : (currentPage st - 1) * itemsPerPage < Z.of_nat (List.length l))
    by nia.
  assert (Hnn : 0 <= (currentPage st - 1) * itemsPerPage) by nia.
  destruct (Nat.eqb_spec (List.length l) 0) as [E|E]; [lia|].
  rewrite slice_length_inside by lia. lia.
Qed.

Lemma showing_range_matches_page_witness :
  Z.of_nat (List.length (paginatedTransactions
                           Sample.host 15 (Sample.showing Sample.mixed 2)))
  = showingTo Sample.host 15 (Sample.showing Sample.mixed 2)
    - showingFrom Sample.host 15 (Sample.showing Sample.mixed 2) + 1
  /\ 1 <= showingFrom Sample.host 15 (Sample.showing Sample.mixed 2)
     <= showingTo Sample.host 15 (Sample.showing Sample.mixed 2)
  /\ showingTo Sample.host 15 (Sample.showing Sample.mixed 2)
     <= Z.of_nat (List.length (filteredAndSortedTransactions
                                 Sample.host (Sample.showing Sample.mixed 2))).
Proof.
  apply (showing_range_matches_page
           Sample.host 15 (Sample.showing Sample.mixed 2)).
  - lia.
  - vm_compute. split; discriminate.
Defined.

Section PagerFacts.
Variable host : JS.Host.
Variable itemsPerPage : Z.

(** The first number of the window of page buttons. *)
Lemma pageNum_window (total current i : Z) :
  pageNum total current i = pageNum total current 0 + i.
Proof.
  unfold pageNum.
  destruct (total <=? 5), (current <=? 3), (current >=? total - 2); lia.
Qed.

Lemma pageButtons_window (st : State) :
  pageButtons host itemsPerPage st
  = map (fun i => pageNum (totalPages host itemsPerPage st) (currentPage st) 0
                  + Z.of_nat i)
        (seq 0 (Z.to_nat (Z.min (totalPages host itemsPerPage st) 5))).
Proof.
  unfold pageButtons. apply map_ext. intros i. apply pageNum_window.
Qed.

Lemma pageNum_positive (total current i : Z) :
  0 <= i -> 1 <= pageNum total current i.
Proof.
  intros Hi. unfold pageNum.
  destruct (Z.leb_spec total 5), (Z.leb_spec current 3),
    (Z.geb_spec current (total - 2)); lia.
Qed.

Lemma pageButtons_In (st : State) (p : Z) :
  In p (pageButtons host itemsPerPage st) <->
  exists i, 0 <= i < Z.min (totalPages host itemsPerPage st) 5
            /\ p = pageNum (totalPages host itemsPerPage st) (currentPage st) i.
Proof.
  unfold pageButtons. rewrite in_map_iff. split.
  - intros [i [<- Hi]]. apply in_seq in Hi. exists (Z.of_nat i). split; lia.
  - intros [i [Hi ->]]. exists (Z.to_nat i). split.
    + f_equal. lia.
    + apply in_seq. lia.
Qed.

Lemma existsb_Zeqb (p : Z) (l : list Z) : existsb (Z.eqb p) l = true -> In p l.
Proof.
  intros H. apply existsb_exists in H. destruct H as [x [Hx E]].
  apply Z.eqb_eq in E. now subst.
Qed.

Lemma step_pager_rows (st : State) (e : Event) :
  match e with Previous | Next | GoToPage _ => True | _ => False end ->
  filteredAndSortedTransactions host (step host itemsPerPage st e)
  = filteredAndSortedTransactions host st.
Proof.
  destruct e; simpl; try tauto; intros _;
    try destruct (_ =? _); reflexivity.
Qed.
End PagerFacts.

(** X4.  On a page within [1, totalPages] the page buttons are consecutive
    page numbers, at most five of them, all within [1, totalPages], and the
    current page is one of them. *)
Theorem pageButtons_in_range (host : JS.Host) (itemsPerPage : Z) (st : State) :
  1 <= currentPage st <= totalPages host itemsPerPage st ->
  exists first,
    pageButtons host itemsPerPage st
    = map (fun i => first + Z.of_nat i)
          (seq 0 (Z.to_nat (Z.min (totalPages host itemsPerPage st) 5)))
    /\ In (currentPage st) (pageButtons host itemsPerPage st)
    /\ Forall (fun p => 1 <= p <= totalPages host itemsPerPage st)
              (pageButtons host itemsPerPage st).
Proof.
  intros Hc.
  exists (pageNum (totalPages host itemsPerPage st) (currentPage st) 0).
  split; [apply pageButtons_window|]. split.
  - apply pageButtons_In.
    exists (currentPage st
            - pageNum (totalPages host itemsPerPage st) (currentPage st) 0).
    rewrite (pageNum_window _ _ (_ - _)). unfold pageNum.
    destruct (Z.leb_spec (totalPages host itemsPerPage st) 5),
      (Z.leb_spec (currentPage st) 3),
      (Z.geb_spec (currentPage st) (totalPages host itemsPerPage st - 2));
      lia.
  - apply Forall_forall. intros p Hp. apply pageButtons_In in Hp.
    destruct Hp as [i [Hi ->]]. unfold pageNum.
    destruct (Z.leb_spec (totalPages host itemsPerPage st) 5),
      (Z.leb_spec (currentPage st) 3),
      (Z.geb_spec (currentPage st) (totalPages host itemsPerPage st - 2));
      lia.
Qed.

Lemma pageButtons_in_range_witness :
  exists first,
    pageButtons Sample.host 2 (Sample.showing Sample.sixteen 4)
    = map (fun i => first + Z.of_nat i)
          (seq 0 (Z.to_nat
                    (Z.min (totalPages Sample.host 2
                                       (Sample.showing Sample.sixteen 4)) 5)))
    /\ In (currentPage (Sample.showing Sample.sixteen 4))
          (pageButtons Sample.host 2 (Sample.showing Sample.sixteen 4))
    /\ Forall (fun p => 1 <= p <= totalPages Sample.host 2
                                     (Sample.showing Sample.sixteen 4))
              (pageButtons Sample.host 2 (Sample.showing Sample.sixteen 4)).
Proof.
  apply (pageButtons_in_range Sample.host 2 (Sample.showing Sample.sixteen 4)).
  vm_compute. split; discriminate.
Defined.

(** X5.  From a page within [1, totalPages], the Previous, Next and page
    buttons, as far as they are enabled, lead to a page within
    [1, totalPages] again, and leave the listed rows as they are. *)
Theorem pager_stays_in_range
        (host : JS.Host) (itemsPerPage : Z) (st : State) (e : Event) :
  match e with Previous | Next | GoToPage _ => True | _ => False end ->
  enabled host itemsPerPage st e = true ->
  1 <= currentPage st <= totalPages host itemsPerPage st ->
  1 <= currentPage (step host itemsPerPage st e)
    <= totalPages host itemsPerPage (step host itemsPerPage st e)
  /\ filteredAndSortedTransactions host (step host itemsPerPage st e)
     = filteredAndSortedTransactions host st.
Proof.
  intros He Hen Hc. split; [|now apply step_pager_rows].
  assert (Htp : totalPages host itemsPerPage (step host itemsPerPage st e)
                = totalPages host itemsPerPage st)
    by (unfold totalPages; now rewrite step_pager_rows).
  rewrite Htp. clear Htp.
  destruct e; simpl in He; try tauto; cbn [step enabled] in *.
  - destruct (Z.eqb_spec (currentPage st) 1); simpl; lia.
  - destruct (Z.eqb_spec (currentPage st) (totalPages host itemsPerPage st));
      simpl; lia.
  - apply andb_true_iff in Hen. destruct Hen as [_ Hen].
    apply existsb_Zeqb, pageButtons_In in Hen.
    destruct Hen as [i [Hi ->]]. cbn [currentPage setCurrentPage].
    unfold pageNum.
    destruct (Z.leb_spec (totalPages host itemsPerPage st) 5),
      (Z.leb_spec (currentPage st) 3),
      (Z.geb_spec (currentPage st) (totalPages host itemsPerPage st - 2));
      lia.
Qed.

Lemma pager_stays_in_range_witness :
  1 <= currentPage (step Sample.host 15 (Sample.showing Sample.mixed 1) Next)
    <= totalPages Sample.host 15
                  (step Sample.host 15 (Sample.showing Sample.mixed 1) Next)
  /\ filteredAndSortedTransactions
       Sample.host (step Sample.host 15 (Sample.showing Sample.mixed 1) Next)
     = filteredAndSortedTransactions
         Sample.host (Sample.showing Sample.mixed 1).
Proof.
  apply (pager_stays_in_range
           Sample.host 15 (Sample.showing Sample.mixed 1) Next).
  - exact I.
  - vm_compute. reflexivity.
  - vm_compute. split; discriminate.
Defined.

(** * The transactions page: what holds in every state *)

Section Invariants.
Variable host : JS.Host.
Variable itemsPerPage : Z.

Lemma step_page_positive (st : State) (e : Event) :
  enabled host itemsPerPage st e = true ->
  1 <= currentPage st -> 1 <= currentPage (step host itemsPerPage st e).
Proof.
  intros Hen Hc.
  destruct e as [v| |v|v|v| |f| | |p|data]; cbn [step enabled] in *.
  - unfold setSearchQuery. destruct (String.eqb _ _); simpl; lia.
  - unfold debounceTimeout. destruct (timerPending st); simpl; lia.
  - exact Hc.
  - exact Hc.
  - exact Hc.
  - simpl. lia.
  - simpl. lia.
  - destruct (Z.eqb_spec (currentPage st) 1); simpl; lia.
  - destruct (_ =? _); simpl; lia.
  - apply andb_true_iff in Hen. destruct Hen as [_ Hen].
    apply existsb_Zeqb, pageButtons_In in Hen.
    destruct Hen as [i [Hi ->]]. cbn [currentPage setCurrentPage].
    apply pageNum_positive. lia.
  - exact Hc.
Qed.

Lemma step_debounce_settled (st : State) (e : Event) :
  (timerPending st = false -> debouncedSearch st = searchQuery st) ->
  timerPending (step host itemsPerPage st e) = false ->
  debouncedSearch (step host itemsPerPage st e)
  = searchQuery (step host itemsPerPage st e).
Proof.
  intros Hinv.
  destruct e as [v| |v|v|v| |f| | |p|data]; cbn [step].
  - unfold setSearchQuery. destruct (String.eqb _ _); simpl; auto.
    discriminate.
  - unfold debounceTimeout. destruct (timerPending st) eqn:E; simpl; auto.
  - exact Hinv.
  - exact Hinv.
  - exact Hinv.
  - unfold clearFilters, setSearchQuery. simpl.
    destruct (searchQuery st) eqn:E; simpl; [|discriminate].
    rewrite E. exact Hinv.
  - unfold handleSort. destruct (SortField_eqb _ _); simpl; exact Hinv.
  - destruct (_ =? _); simpl; exact Hinv.
  - destruct (_ =? _); simpl; exact Hinv.
  - exact Hinv.
  - exact Hinv.
Qed.
End Invariants.

Lemma reachable_debounce_settled
      (host : JS.Host) (itemsPerPage : Z) (st : State) :
  reachable host itemsPerPage st ->
  timerPending st = false -> debouncedSearch st = searchQuery st.
Proof.
  induction 1 as [|st e _ IH Hen]; [discriminate|].
  now apply step_debounce_settled.
Qed.

(** X6.  In every state the page can reach, the current page is at least 1,
    so the slice of visible rows never starts at a negative index. *)
Theorem page_at_least_one (host : JS.Host) (itemsPerPage : Z) (st : State) :
  reachable host itemsPerPage st -> 1 <= currentPage st.
Proof.
  induction 1 as [|st e _ IH Hen]; [simpl; lia|].
  now apply step_page_positive.
Qed.

Lemma page_at_least_one_witness :
  1 <= currentPage (step Sample.host 15
                         (step Sample.host 15 initialState
                               (Loaded Sample.mixed)) Next).
Proof.
  apply (page_at_least_one Sample.host 15).
  apply reachable_step; [|vm_compute; reflexivity].
  apply reachable_step; [|reflexivity].
  apply reachable_initial.
Defined.

(** X7.  In every state the page can reach, once the debounce timer has
    fired and none is pending, the rows are filtered by the very text shown
    in the search box. *)
Theorem search_settles (host : JS.Host) (itemsPerPage : Z) (st : State) :
  reachable host itemsPerPage st ->
  timerPending st = false ->
  debouncedSearch st = searchQuery st.
Proof.
  induction 1 as [|st e _ IH Hen]; [discriminate|].
  now apply step_debounce_settled.
Qed.

Lemma search_settles_witness :
  debouncedSearch (step Sample.host 15
                        (step Sample.host 15 initialState (SearchInput "0xabc"))
                        DebounceTimeout)
  = "0xabc".
Proof.
  apply (search_settles
           Sample.host 15
           (step Sample.host 15
                 (step Sample.host 15 initialState (SearchInput "0xabc"))
                 DebounceTimeout)).
  - apply reachable_step; [|reflexivity].
    apply reachable_step; [|reflexivity].
    apply reachable_initial.
  - reflexivity.
Defined.

(** X8.  From every state the page can reach, "Clear Filters" followed by
    the debounce timer (if one is pending) lists every transaction again, on
    page 1. *)
Theorem clearFilters_lists_all (host : JS.Host) (itemsPerPage : Z) (st : State) :
  reachable host itemsPerPage st ->
  filtered host (step host itemsPerPage (step host itemsPerPage st ClearFilters)
                      DebounceTimeout)
  = transactions st
  /\ Permutation
       (filteredAndSortedTransactions
          host (step host itemsPerPage (step host itemsPerPage st ClearFilters)
                     DebounceTimeout))
       (transactions st)
  /\ currentPage (step host itemsPerPage
                       (step host itemsPerPage st ClearFilters)
                       DebounceTimeout) = 1.
Proof.
  intros Hr. pose proof (reachable_debounce_settled _ _ _ Hr) as Hinv.
  assert (H : filtered host (step host itemsPerPage
                                  (step host itemsPerPage st ClearFilters)
                                  DebounceTimeout) = transactions st
              /\ currentPage (step host itemsPerPage
                                   (step host itemsPerPage st ClearFilters)
                                   DebounceTimeout) = 1).
  { cbn [step]. unfold clearFilters, setSearchQuery, debounceTimeout. simpl.
    destruct (searchQuery st) eqn:E; simpl.
    - destruct (timerPending st) eqn:Et; simpl;
        unfold filtered, beforeSearch; simpl; rewrite ?E, ?(Hinv eq_refl);
        split; reflexivity.
    - split; reflexivity. }
  destruct H as [Hf Hp]. split; [exact Hf|]. split; [|exact Hp].
  rewrite <- Hf. apply sort_perm.
Qed.

Lemma clearFilters_lists_all_witness :
  filtered Sample.host
           (step Sample.host 15
                 (step Sample.host 15
                       (step Sample.host 15
                             (step Sample.host 15 initialState
                                   (Loaded Sample.mixed))
                             (SelectStatus "pending"))
                       ClearFilters)
                 DebounceTimeout)
  = Sample.mixed.
Proof.
  apply (clearFilters_lists_all
           Sample.host 15
           (step Sample.host 15
                 (step Sample.host 15 initialState (Loaded Sample.mixed))
                 (SelectStatus "pending"))).
  apply reachable_step; [|reflexivity].
  apply reachable_step; [|reflexivity].
  apply reachable_initial.
Defined.

(** X9.  Every event that changes the sort field, the sort order or the
    search text the rows are filtered by leaves the page at 1. *)
Theorem sort_or_search_change_resets_page
        (host : JS.Host) (itemsPerPage : Z) (st : State) (e : Event) :
  sortField (step host itemsPerPage st e) <> sortField st
  \/ sortOrder (step host itemsPerPage st e) <> sortOrder st
  \/ debouncedSearch (step host itemsPerPage st e) <> debouncedSearch st ->
  currentPage (step host itemsPerPage st e) = 1.
Proof.
  destruct e as [v| |v|v|v| |f| | |p|data]; cbn [step];
    try (intros [H|[H|H]]; exfalso; apply H; reflexivity);
    try reflexivity.
  - unfold setSearchQuery. destruct (String.eqb _ _); simpl;
      intros [H|[H|H]]; exfalso; apply H; reflexivity.
  - unfold debounceTimeout. destruct (timerPending st); simpl;
      [reflexivity|intros [H|[H|H]]; exfalso; apply H; reflexivity].
  - destruct (_ =? _); simpl;
      intros [H|[H|H]]; exfalso; apply H; reflexivity.
  - destruct (_ =? _); simpl;
      intros [H|[H|H]]; exfalso; apply H; reflexivity.
Qed.

Lemma sort_or_search_change_resets_page_witness :
  currentPage (step Sample.host 15 (Sample.showing Sample.mixed 2)
                    (HandleSort SortField.amount)) = 1.
Proof.
  apply (sort_or_search_change_resets_page
           Sample.host 15 (Sample.showing Sample.mixed 2)
           (HandleSort SortField.amount)).
  left. discriminate.
Defined.

(** X10.  The sort toggle: choosing a field other than the current one sorts
    by it in descending order; choosing the current field flips the order;
    so choosing a field twice in a row ends in ascending order if the field
    was new and restores the order if it was current.  The filters are never
    touched. *)
Theorem handleSort_toggle (f : SortField.t) (st : State) :
  sortField (handleSort f st) = f
  /\ (sortField st <> f ->
      sortOrder (handleSort f st) = desc
      /\ sortOrder (handleSort f (handleSort f st)) = asc)
  /\ (sortField st = f ->
      sortOrder (handleSort f st)
      = match sortOrder st with asc => desc | desc => asc end
      /\ sortOrder (handleSort f (handleSort f st)) = sortOrder st)
  /\ (statusFilter (handleSort f st) = statusFilter st
      /\ dateFrom (handleSort f st) = dateFrom st
      /\ dateTo (handleSort f st) = dateTo st
      /\ debouncedSearch (handleSort f st) = debouncedSearch st
      /\ transactions (handleSort f st) = transactions st).
Proof.
  unfold handleSort.
  destruct (sortField st) eqn:Ef, f; simpl;
    repeat split; try congruence; try (intros; congruence);
    destruct (sortOrder st); simpl; intros; congruence.
Qed.

Lemma handleSort_toggle_witness :
  sortOrder (handleSort SortField.amount
                        (Sample.showing Sample.mixed 2)) = desc
  /\ sortOrder (handleSort SortField.amount
                  (handleSort SortField.amount
                              (Sample.showing Sample.mixed 2))) = asc.
Proof.
  apply (proj1 (proj2 (handleSort_toggle SortField.amount
                                         (Sample.showing Sample.mixed 2)))).
  discriminate.
Defined.

(** * The transactions page: more on filtering and sorting *)

Lemma filter_and {A : Type} (f g : A -> bool) (l : list A) :
  filter g (filter f l) = filter (fun x => f x && g x)%bool l.
Proof.
  induction l as [|x l IH]; simpl; [reflexivity|].
  destruct (f x); simpl; [|exact IH].
  destruct (g x); now rewrite IH.
Qed.

Lemma stage_filter {A : Type} (c : bool) (f : A -> bool) (l : list A) :
  (if c then filter f l else l) = filter (fun x => negb c || f x)%bool l.
Proof.
  destruct c; simpl; [reflexivity|].
  induction l as [|x l IH]; simpl; [reflexivity|]. now rewrite <- IH.
Qed.

Lemma filter_length_le {A : Type} (f : A -> bool) (l : list A) :
  (List.length (filter f l) <= List.length l)%nat.
Proof.
  induction l as [|x l IH]; simpl; [lia|]. destruct (f x); simpl; lia.
Qed.

(** X11.  The four filters together keep exactly the rows that pass every
    active filter, in the order they were loaded in; so the count shown is
    never more than the number of transactions. *)
Theorem filtered_is_one_filter (host : JS.Host) (st : State) :
  filtered host st = filter (passes host st) (transactions st)
  /\ (List.length (filteredAndSortedTransactions host st)
      <= List.length (transactions st))%nat.
Proof.
  assert (H : filtered host st = filter (passes host st) (transactions st)).
  { unfold filtered, beforeSearch, bySearch, byDateTo, byDateFrom, byStatus.
    cbv zeta. rewrite !stage_filter, !filter_and.
    apply filter_ext. intros tx. unfold passes.
    now rewrite negb_involutive, ?andb_assoc. }
  split; [exact H|].
  unfold filteredAndSortedTransactions. rewrite sort_length, H.
  apply filter_length_le.
Qed.

Lemma lower_char_idempotent (c : ascii) :
  JS.lower_char (JS.lower_char c) = JS.lower_char c.
Proof. destruct c as [[] [] [] [] [] [] [] []]; reflexivity. Qed.

Lemma toLowerCase_idempotent (s : string) :
  JS.toLowerCase (JS.toLowerCase s) = JS.toLowerCase s.
Proof.
  induction s as [|c s IH]; simpl; [reflexivity|].
  now rewrite lower_char_idempotent, IH.
Qed.

Lemma truthy_toLowerCase (s : string) : truthy (JS.toLowerCase s) = truthy s.
Proof. now destruct s. Qed.

(** X12.  The search ignores the case of the text typed: two texts that are
    equal up to the case of their letters keep the same rows, and so do a
    text and its lower-case form. *)
Theorem search_ignores_case (q1 q2 : string) (l : list Transaction) :
  JS.toLowerCase q1 = JS.toLowerCase q2 ->
  bySearch q1 l = bySearch q2 l
  /\ bySearch (JS.toLowerCase q1) l = bySearch q1 l.
Proof.
  intros H. unfold bySearch. cbv zeta.
  rewrite toLowerCase_idempotent, truthy_toLowerCase.
  rewrite <- (truthy_toLowerCase q1), <- (truthy_toLowerCase q2), H.
  split; reflexivity.
Qed.

Lemma search_ignores_case_witness :
  bySearch "0xABC1" Sample.mixed = bySearch "0xabc1" Sample.mixed
  /\ bySearch (JS.toLowerCase "0xABC1") Sample.mixed
     = bySearch "0xABC1" Sample.mixed.
Proof.
  apply (search_ignores_case "0xABC1" "0xabc1" Sample.mixed). reflexivity.
Defined.

(** X13.  Sorting by date lists the rows in the order of their times
    (ascending or descending) when every listed row has a valid timestamp,
    which is always so while a date bound is set. *)
Theorem date_sort_chronological (host : JS.Host) (st : State) :
  sortField st = SortField.date ->
  truthy (dateFrom st) = true \/ truthy (dateTo st) = true
  \/ Forall (fun tx => JS.newDate host (timestamp tx) <> None)
            (filtered host st) ->
  StronglySorted (dateOrdered host (sortOrder st))
                 (filteredAndSortedTransactions host st).
Proof.
  intros Hf Hv.
  assert (Hvalid : Forall (fun tx => JS.isNaN (timeOf host tx) = false)
                          (filtered host st)).
  { apply Forall_forall. intros tx Hin. unfold timeOf.
    assert (Hd : JS.newDate host (timestamp tx) <> None).
    { destruct Hv as [H|[H|H]].
      - apply (dated_rows_valid host st); [now left|].
        now apply bySearch_incl in Hin.
      - apply (dated_rows_valid host st); [now right|].
        now apply bySearch_incl in Hin.
      - rewrite Forall_forall in H. now apply H. }
    destruct (JS.newDate host (timestamp tx)); [reflexivity|congruence]. }
  unfold filteredAndSortedTransactions. rewrite Hf.
  exact (keyed_sort_sorted (timeOf host) (fun tx => onGrid_getTime _)
                           (sortOrder st) _ Hvalid).
Qed.

Lemma date_sort_chronological_witness :
  StronglySorted (dateOrdered Sample.host desc)
                 (filteredAndSortedTransactions Sample.host Sample.since2024).
Proof.
  apply (date_sort_chronological Sample.host Sample.since2024).
  - reflexivity.
  - left. reflexivity.
Defined.

(** The rows of that state: the dateless row is dropped by the date bound,
    and the three dated ones, loaded out of order, are listed latest
    first. *)
Example since2024_listed :
  filtered Sample.host Sample.since2024
  = [Sample.january; Sample.march; Sample.february]
  /\ filteredAndSortedTransactions Sample.host Sample.since2024
     = [Sample.march; Sample.february; Sample.january].
Proof. vm_compute. split; reflexivity. Qed.

(** X14.  Sorting by status lists the rows in the alphabetical order of
    their statuses (confirmed, failed, pending), or its reverse, whatever
    the rows are. *)
Theorem status_sort_alphabetical (host : JS.Host) (st : State) :
  sortField st = SortField.status ->
  StronglySorted (statusOrdered (sortOrder st))
                 (filteredAndSortedTransactions host st).
Proof.
  intros Hf. unfold filteredAndSortedTransactions. rewrite Hf.
  apply (sort_sorted _ (fun _ => True)).
  - intros x y _ _. apply status_gt.
  - intros x y _ _. apply status_le.
  - intros x y _ _. apply status_eq.
  - intros x y z _ _ _. apply status_trans.
  - apply Forall_forall. auto.
Qed.

Lemma status_sort_alphabetical_witness :
  StronglySorted (statusOrdered asc)
                 (filteredAndSortedTransactions
                    Sample.host
                    (Sample.sortedBy Sample.three SortField.status asc)).
Proof.
  apply (status_sort_alphabetical
           Sample.host (Sample.sortedBy Sample.three SortField.status asc)).
  reflexivity.
Defined.

(** * CSV export: the shape of the output *)

Section CsvShape.
Import Csv.

Lemma count_app (c : ascii) (a b : string) :
  count c (a ++ b) = (count c a + count c b)%nat.
Proof. induction a as [|d a IH]; simpl; [reflexivity|]. rewrite IH. lia. Qed.

Lemma count_contains (c : ascii) (s : string) :
  contains c s = false <-> count c s = 0%nat.
Proof.
  induction s as [|d s IH]; simpl; [tauto|].
  destruct (Ascii.eqb d c); simpl; [split; [discriminate|lia]|exact IH].
Qed.

Lemma count_doubled_quote (s : string) :
  count DQUOTE (doubled s) = (2 * count DQUOTE s)%nat.
Proof.
  induction s as [|d s IH]; simpl; [reflexivity|].
  destruct (Ascii.eqb d DQUOTE) eqn:E; simpl; rewrite ?E, IH; simpl; lia.
Qed.

Lemma count_doubled_other (c : ascii) (s : string) :
  Ascii.eqb DQUOTE c = false -> count c (doubled s) = count c s.
Proof.
  intros Hc. induction s as [|d s IH]; [reflexivity|].
  cbn [doubled]. destruct (Ascii.eqb_spec d DQUOTE) as [->|E];
    cbn [count]; rewrite ?Hc, IH; reflexivity.
Qed.

Lemma count_escapeCsv_other (c : ascii) (value : string) :
  Ascii.eqb DQUOTE c = false -> count c (escapeCsv value) = count c value.
Proof.
  intros Hc. rewrite escapeCsv_spec. unfold spec_field.
  destruct (_ || _ || _)%bool; [|reflexivity].
  rewrite !count_app, count_doubled_other by exact Hc.
  unfold str. cbn [count]. rewrite Hc. lia.
Qed.

Lemma countIn_escaped (c : ascii) (fields : list string) :
  Ascii.eqb DQUOTE c = false ->
  countIn c (map escapeCsv fields) = countIn c fields.
Proof.
  intros Hc. induction fields as [|v fields IH]; simpl; [reflexivity|].
  now rewrite IH, count_escapeCsv_other.
Qed.

Lemma count_join (c : ascii) (sep : string) (l : list string) :
  count c (JS.join sep l)
  = (countIn c l + (List.length l - 1) * count c sep)%nat.
Proof.
  induction l as [|x [|y l] IH]; simpl; [reflexivity|lia|].
  simpl in IH. rewrite !count_app, IH. lia.
Qed.

Lemma countIn_app (c : ascii) (a b : list string) :
  countIn c (a ++ b)%list = (countIn c a + countIn c b)%nat.
Proof. induction a as [|x a IH]; simpl; [reflexivity|]. rewrite IH. lia. Qed.

Lemma countIn_rows (rows : list Transaction) :
  countIn LF (map (fun r => JS.join "," (vals r)) rows) = countInRows LF rows.
Proof.
  induction rows as [|r rows IH]; [reflexivity|].
  change (countIn LF (map (fun r => JS.join "," (vals r)) (r :: rows)))
    with (count LF (JS.join "," (vals r))
          + countIn LF (map (fun r => JS.join "," (vals r)) rows))%nat.
  change (countInRows LF (r :: rows))
    with (countIn LF (rawFields r) + countInRows LF rows)%nat.
  rewrite IH. f_equal. rewrite count_join.
  change (vals r) with (map escapeCsv (rawFields r)).
  rewrite countIn_escaped by reflexivity.
  change (count LF ",") with 0%nat. lia.
Qed.

(** Doubling the quotes of a value loses nothing. *)
Lemma doubled_inj (v1 v2 : string) :
  doubled v1 ++ str DQUOTE = doubled v2 ++ str DQUOTE -> v1 = v2.
Proof.
  revert v2. induction v1 as [|c1 v1 IH]; intros [|c2 v2]; simpl;
    try reflexivity.
  - destruct (Ascii.eqb_spec c2 DQUOTE) as [->|Hc2]; simpl; intros H;
      inversion H; congruence.
  - destruct (Ascii.eqb_spec c1 DQUOTE) as [->|Hc1]; simpl; intros H;
      inversion H; congruence.
  - destruct (Ascii.eqb_spec c1 DQUOTE) as [->|Hc1],
      (Ascii.eqb_spec c2 DQUOTE) as [->|Hc2]; simpl; intros H;
      inversion H; subst; try congruence; f_equal; auto.
Qed.
End CsvShape.

(** X15.  Escaping loses nothing: two values with the same escaped field are
    the same value. *)
Theorem escapeCsv_injective (v1 v2 : string) :
  Csv.escapeCsv v1 = Csv.escapeCsv v2 <-> v1 = v2.
Proof.
  split; [|now intros ->].
  rewrite !escapeCsv_spec. unfold Csv.spec_field.
  destruct (_ || _ || _)%bool eqn:E1;
    destruct (Csv.contains "," v2 || Csv.contains Csv.DQUOTE v2
              || Csv.contains Csv.LF v2)%bool eqn:E2.
  - simpl. intros H. inversion H. now apply doubled_inj.
  - intros <-. apply orb_false_iff in E2. destruct E2 as [E2 _].
    apply orb_false_iff in E2. destruct E2 as [_ E2]. discriminate E2.
  - intros ->. apply orb_false_iff in E1. destruct E1 as [E1 _].
    apply orb_false_iff in E1. destruct E1 as [_ E1]. discriminate E1.
  - auto.
Qed.

(** X16.  Every escaped field is well formed: it holds an even number of
    double quotes, and if a comma, double quote or newline occurs in it, it
    starts and ends with a double quote. *)
Theorem escaped_field_well_formed (value : string) :
  Nat.even (count Csv.DQUOTE (Csv.escapeCsv value)) = true
  /\ (JS.test_class [Csv.DQUOTE; ","%char; Csv.LF] (Csv.escapeCsv value) = true ->
      exists body,
        Csv.escapeCsv value
        = Csv.str Csv.DQUOTE ++ body ++ Csv.str Csv.DQUOTE).
Proof.
  rewrite escapeCsv_spec. unfold Csv.spec_field.
  destruct (_ || _ || _)%bool eqn:E.
  - split; [|eauto].
    rewrite !count_app, count_doubled_quote.
    change (count Csv.DQUOTE (Csv.str Csv.DQUOTE)) with 1%nat.
    replace (1 + (2 * count Csv.DQUOTE value + 1))%nat
      with (2 * (count Csv.DQUOTE value + 1))%nat by lia.
    apply Nat.even_spec. now exists (count Csv.DQUOTE value + 1)%nat.
  - split.
    + apply orb_false_iff in E. destruct E as [E _].
      apply orb_false_iff in E. destruct E as [_ E].
      apply count_contains in E. now rewrite E.
    + rewrite test_class_contains, E. discriminate.
Qed.

(** X17.  The shape of the export: it holds one newline per transaction
    besides the newlines inside values, and each row holds eight separating
    commas besides the commas inside its values. *)
Theorem csv_shape (rows : list Transaction) :
  count Csv.LF (Csv.transactionsToCsv rows)
  = (List.length rows + countInRows Csv.LF rows)%nat
  /\ forall r,
       count "," (JS.join "," (Csv.vals r))
       = (8 + countIn "," (rawFields r))%nat.
Proof.
  split.
  - unfold Csv.transactionsToCsv. rewrite push_lines, count_join.
    rewrite countIn_app, countIn_rows, length_app, length_map. simpl. lia.
  - intros r. rewrite count_join.
    change (Csv.vals r) with (map Csv.escapeCsv (rawFields r)).
    rewrite countIn_escaped by reflexivity. simpl. lia.
Qed.

(** * Theme storage and the theme switch *)

Module ThemeMore.
Import stdpp.gmap stdpp.strings.
Import Theme.

Lemma applyTheme_twice (t1 t2 : Theme.Theme) (env : Env) :
  applyTheme t2 (applyTheme t1 env) = applyTheme t2 env.
Proof.
  unfold applyTheme. destruct (document_defined env) eqn:Hd;
    cbn [document_defined window_defined localStorage classList negb];
    rewrite ?Hd; cbn [negb]; [|reflexivity].
  f_equal.
  - apply insert_insert_eq.
  - destruct t1, t2; apply set_eq; intros x;
      rewrite ?elem_of_union, ?elem_of_difference, ?elem_of_union,
        ?elem_of_difference, ?elem_of_singleton;
      destruct (decide (x = "dark")); tauto.
Qed.

Lemma applyTheme_class (t : Theme.Theme) (env : Env) (c : string) :
  document_defined env = true ->
  c ∈ classList (applyTheme t env)
  <-> (c = "dark" /\ t = dark) \/ (c <> "dark" /\ c ∈ classList env).
Proof.
  intros Hd. unfold applyTheme. rewrite Hd.
  cbn [negb classList].
  destruct t; rewrite ?elem_of_union, ?elem_of_difference, ?elem_of_singleton;
    destruct (decide (c = "dark")); intuition congruence.
Qed.

Lemma applyTheme_stored (t : Theme.Theme) (env : Env) :
  window_defined env = true -> document_defined env = true ->
  getStoredTheme (applyTheme t env) = Some t.
Proof.
  intros Hw Hd. unfold getStoredTheme, applyTheme. rewrite Hd. simpl.
  rewrite Hw. simpl. rewrite lookup_insert_eq. now destruct t.
Qed.

Lemma getStoredTheme_string (t : Theme.Theme) (env : Env) :
  getStoredTheme env = Some t ->
  window_defined env = true
  /\ localStorage env !! THEME_KEY = Some (Theme_toString t).
Proof.
  unfold getStoredTheme. destruct (window_defined env); simpl; [|discriminate].
  destruct (localStorage env !! THEME_KEY) as [s|]; [|discriminate].
  destruct (String.eqb_spec s "dark") as [->|_];
    [intros [= <-]; auto|].
  destruct (String.eqb_spec s "light") as [->|_];
    [intros [= <-]; auto|discriminate].
Qed.

Lemma applyTheme_window (t : Theme.Theme) (env : Env) :
  window_defined (applyTheme t env) = window_defined env
  /\ document_defined (applyTheme t env) = document_defined env.
Proof.
  unfold applyTheme. destruct (document_defined env) eqn:Hd; cbn [negb];
    split; try reflexivity; exact Hd.
Qed.

Lemma applyTheme_keeps_stored (t : Theme.Theme) (env : Env) :
  getStoredTheme env = Some t -> getStoredTheme (applyTheme t env) = Some t.
Proof.
  intros H. destruct (getStoredTheme_string t env H) as [Hw Hs].
  destruct (document_defined env) eqn:Hd.
  - now apply applyTheme_stored.
  - unfold applyTheme. now rewrite Hd.
Qed.

Lemma initTheme_stored (t : Theme.Theme) (env : Env) :
  getStoredTheme env = Some t -> initTheme env = applyTheme t env.
Proof.
  intros Hs. destruct (getStoredTheme_string t env Hs) as [Hw _].
  unfold initTheme. now rewrite Hw, Hs.
Qed.

Lemma initTheme_none (env : Env) :
  getStoredTheme env = None -> initTheme env = env.
Proof.
  intros Hs. unfold initTheme.
  destruct (window_defined env); cbn [negb]; [now rewrite Hs|reflexivity].
Qed.

(** X18.  The last theme applied wins: applying a theme after another one
    leaves the environment as applying it alone does; in particular applying
    the same theme twice changes nothing more. *)
Theorem applyTheme_last_wins (t1 t2 : Theme.Theme) (env : Env) :
  applyTheme t2 (applyTheme t1 env) = applyTheme t2 env
  /\ applyTheme t2 (applyTheme t2 env) = applyTheme t2 env.
Proof.
  assert (H : forall t, applyTheme t2 (applyTheme t env) = applyTheme t2 env).
  { intros t. unfold applyTheme. destruct (document_defined env) eqn:Hd;
      cbn [document_defined window_defined localStorage classList negb];
      rewrite ?Hd; cbn [negb]; [|reflexivity].
    f_equal; [apply insert_insert_eq|].
    destruct t, t2; apply set_eq; intros x;
      rewrite ?elem_of_union, ?elem_of_difference, ?elem_of_union,
        ?elem_of_difference, ?elem_of_singleton;
      destruct (decide (x = "dark")); tauto. }
  split; apply H.
Qed.

(** X19.  Where [document] is defined, [applyTheme] touches no class of the
    root element but "dark", which is present afterwards exactly for the
    dark theme; where [window] is defined too, the class then agrees with
    the stored theme. *)
Theorem applyTheme_class_agrees (t : Theme.Theme) (env : Env) :
  document_defined env = true ->
  ("dark" ∈ classList (applyTheme t env) <-> t = dark)
  /\ (forall c, c <> "dark" ->
                (c ∈ classList (applyTheme t env) <-> c ∈ classList env))
  /\ (window_defined env = true ->
      ("dark" ∈ classList (applyTheme t env)
       <-> getStoredTheme (applyTheme t env) = Some dark)).
Proof.
  intros Hd. split; [|split].
  - rewrite applyTheme_class by exact Hd. split.
    + intros [[_ H]|[H _]]; congruence.
    + intros ->. now left.
  - intros c Hc. rewrite applyTheme_class by exact Hd. split.
    + intros [[H _]|[_ H]]; congruence.
    + intros H. now right.
  - intros Hw. rewrite applyTheme_class, applyTheme_stored by assumption.
    split.
    + intros [[_ ->]|[H _]]; congruence.
    + intros [= ->]. now left.
Qed.

Lemma applyTheme_class_agrees_witness :
  "dark" ∈ classList (applyTheme dark browser) <-> dark = dark.
Proof.
  apply (proj1 (applyTheme_class_agrees dark browser eq_refl)).
Defined.

(** X20.  [initTheme] never changes the stored theme, changes nothing at all
    when no valid theme is stored, and running it a second time changes
    nothing more. *)
Theorem initTheme_keeps_theme (env : Env) :
  getStoredTheme (initTheme env) = getStoredTheme env
  /\ (getStoredTheme env = None -> initTheme env = env)
  /\ initTheme (initTheme env) = initTheme env.
Proof.
  destruct (getStoredTheme env) as [t|] eqn:Hs.
  - rewrite (initTheme_stored t env Hs).
    pose proof (applyTheme_keeps_stored t env Hs) as Hs'.
    split; [exact Hs'|]. split; [discriminate|].
    rewrite (initTheme_stored t _ Hs'). apply applyTheme_twice.
  - rewrite (initTheme_none env Hs). split; [exact Hs|].
    split; [reflexivity|]. apply (initTheme_none env Hs).
Qed.

(** X21.  The theme switch in a browser: after a toggle the component's
    theme, the stored theme and the "dark" class agree, and a second toggle
    brings the first theme back. *)
Theorem toggleTheme_agrees (s : Nav.State) :
  window_defined (Nav.env s) = true ->
  document_defined (Nav.env s) = true ->
  getStoredTheme (Nav.env (Nav.toggleTheme s)) = Some (Nav.theme (Nav.toggleTheme s))
  /\ ("dark" ∈ classList (Nav.env (Nav.toggleTheme s))
      <-> Nav.theme (Nav.toggleTheme s) = dark)
  /\ Nav.theme (Nav.toggleTheme s) <> Nav.theme s
  /\ Nav.theme (Nav.toggleTheme (Nav.toggleTheme s)) = Nav.theme s.
Proof.
  intros Hw Hd. unfold Nav.toggleTheme. simpl.
  split; [now apply applyTheme_stored|]. split.
  - rewrite applyTheme_class by exact Hd. split.
    + intros [[_ H]|[H _]]; congruence.
    + intros H. now left.
  - destruct (Nav.theme s); split; congruence.
Qed.

Lemma toggleTheme_agrees_witness :
  getStoredTheme (Nav.env (Nav.toggleTheme (Nav.initial browser)))
  = Some (Nav.theme (Nav.toggleTheme (Nav.initial browser)))
  /\ ("dark" ∈ classList (Nav.env (Nav.toggleTheme (Nav.initial browser)))
      <-> Nav.theme (Nav.toggleTheme (Nav.initial browser)) = dark)
  /\ Nav.theme (Nav.toggleTheme (Nav.initial browser))
     <> Nav.theme (Nav.initial browser)
  /\ Nav.theme (Nav.toggleTheme (Nav.toggleTheme (Nav.initial browser)))
     = Nav.theme (Nav.initial browser).
Proof.
  apply (toggleTheme_agrees (Nav.initial browser)); reflexivity.
Defined.

(** X22.  Mounting the navigation bar: a valid stored theme becomes the
    component's theme and, where [document] is defined, the "dark" class is
    set to match it; with no valid stored theme the component keeps its
    theme and the environment is left as it was. *)
Theorem mount_restores_theme (s : Nav.State) :
  (forall t, getStoredTheme (Nav.env s) = Some t ->
             Nav.theme (Nav.mount s) = t
             /\ getStoredTheme (Nav.env (Nav.mount s)) = Some t
             /\ (document_defined (Nav.env s) = true ->
                 ("dark" ∈ classList (Nav.env (Nav.mount s)) <-> t = dark)))
  /\ (getStoredTheme (Nav.env s) = None -> Nav.mount s = s).
Proof.
  unfold Nav.mount. split.
  - intros t Hs. destruct (getStoredTheme_string t _ Hs) as [Hw _].
    rewrite (initTheme_stored t _ Hs), (applyTheme_keeps_stored t _ Hs).
    simpl.
    split; [reflexivity|]. split; [now apply applyTheme_keeps_stored|].
    intros Hd. rewrite applyTheme_class by exact Hd. split.
    + intros [[_ H]|[H _]]; congruence.
    + intros H. now left.
  - intros Hs. rewrite (initTheme_none _ Hs), Hs. now destruct s.
Qed.

End ThemeMore.

(** * The creation form *)

Section FormFacts.
Import JS.
Local Open Scope Q_scope.

Lemma round64_zero (q : Q) : q == 0 -> round64 q = Finite 0.
Proof.
  intros Hq. unfold round64.
  assert (Hn : Qnum q = 0%Z).
  { unfold Qeq in Hq. simpl in Hq. lia. }
  rewrite Hn. reflexivity.
Qed.

Lemma isNaN_round64 (q : Q) : isNaN (round64 q) = false.
Proof.
  unfold round64.
  repeat match goal with
         | |- context [if ?c then _ else _] => destruct c
         end; reflexivity.
Qed.

Lemma mul_zero_finite (z q : Q) :
  z == 0 -> toFixed (mul (Finite z) (Finite q)) 8 = "0.00000000".
Proof.
  intros Hz. cbn [mul]. rewrite round64_zero; [reflexivity|].
  rewrite Hz. apply Qmult_0_l.
Qed.

Lemma mul_finite_zero (z q : Q) :
  z == 0 -> toFixed (mul (Finite q) (Finite z)) 8 = "0.00000000".
Proof.
  intros Hz. cbn [mul]. rewrite round64_zero; [reflexivity|].
  rewrite Hz. apply Qmult_0_r.
Qed.

Lemma mul_zero_infinity (z : Q) (s : bool) :
  z == 0 -> mul (Finite z) (Infinity s) = NaN /\ mul (Infinity s) (Finite z) = NaN.
Proof.
  intros Hz. simpl. unfold Qsign.
  apply Qeq_alt in Hz. rewrite Hz. split; reflexivity.
Qed.

Lemma parseFloat_zero : exists z, parseFloat "0" = Finite z /\ z == 0.
Proof. eexists. split; reflexivity. Qed.

Lemma mul_isNaN (x y : number) :
  isNaN (mul x y) = false -> isNaN x = false /\ isNaN y = false.
Proof.
  destruct x, y; cbn [mul isNaN]; auto; try discriminate;
    destruct (Qsign _); auto.
Qed.

Lemma orElse_falsy (v : option string) (d : string) :
  Details.not_ v = true -> Form.orElse v d = d.
Proof. destruct v as [[|c s]|]; simpl; try discriminate; reflexivity. Qed.

Lemma orElse_truthy (v : option string) (d : string) :
  Details.not_ v = false ->
  exists s, v = Some s /\ Form.orElse v d = s
            /\ Details.parseFloat v = parseFloat s.
Proof.
  destruct v as [[|c s]|]; simpl; try discriminate. intros _. eauto.
Qed.

(** The preview when the parse of one gas field is zero. *)
Lemma preview_with_zero (x : number) (z : Q) :
  z == 0 ->
  (if isNaN x then "0.00000000" else toFixed (mul (Finite z) x) 8)
  = "0.00000000"
  \/ (if isNaN x then "0.00000000" else toFixed (mul (Finite z) x) 8) = "NaN".
Proof.
  intros Hz. destruct x as [|s|q]; simpl isNaN; cbv iota.
  - now left.
  - right. now rewrite (proj1 (mul_zero_infinity z s Hz)).
  - left. now apply mul_zero_finite.
Qed.

Lemma preview_with_zero_r (x : number) (z : Q) :
  z == 0 ->
  (if isNaN x then "0.00000000" else toFixed (mul x (Finite z)) 8)
  = "0.00000000"
  \/ (if isNaN x then "0.00000000" else toFixed (mul x (Finite z)) 8) = "NaN".
Proof.
  intros Hz. destruct x as [|s|q]; simpl isNaN; cbv iota.
  - now left.
  - right. now rewrite (proj2 (mul_zero_infinity z s Hz)).
  - left. now apply mul_finite_zero.
Qed.
End FormFacts.

(** X23.  The fee preview of the form and the fee shown in the details
    dialog agree on the same gas values whenever the dialog shows a number;
    where the dialog shows "N/A" the preview shows "0.00000000", or "NaN"
    for a zero times an infinity. *)
Theorem preview_agrees_with_details (tx : Transaction) :
  (Details.calculateFee tx <> "N/A" ->
   Form.calculateFee (Form.valuesOf tx) = Details.calculateFee tx)
  /\ (Details.calculateFee tx = "N/A" ->
      Form.calculateFee (Form.valuesOf tx) = "0.00000000"
      \/ Form.calculateFee (Form.valuesOf tx) = "NaN").
Proof.
  unfold Details.calculateFee, Form.calculateFee, Form.valuesOf, Details.fee.
  cbn [Form.v_gasLimit Form.v_gasPrice].
  destruct parseFloat_zero as [z [Hz0 Hz]].
  destruct (Details.not_ (gasLimit tx)) eqn:El.
  - rewrite (orElse_falsy _ "0" El), Hz0. simpl. split; [congruence|].
    intros _. now apply preview_with_zero.
  - destruct (orElse_truthy _ "0" El) as [gl [_ [-> ->]]].
    destruct (Details.not_ (gasPrice tx)) eqn:Ep.
    + rewrite (orElse_falsy _ "0" Ep), Hz0. simpl. split; [congruence|].
      intros _. rewrite orb_false_r.
      destruct (JS.parseFloat gl) as [|s|q] eqn:Eg.
      * now left.
      * right. now rewrite (proj2 (mul_zero_infinity z s Hz)).
      * left. now apply mul_finite_zero.
    + destruct (orElse_truthy _ "0" Ep) as [gp [_ [-> ->]]]. simpl.
      destruct (JS.isNaN (JS.mul (JS.parseFloat gl) (JS.parseFloat gp)))
        eqn:En.
      * split; [congruence|]. intros _.
        destruct (JS.parseFloat gl) as [|s|p], (JS.parseFloat gp) as [|t|q];
          cbn [JS.mul JS.isNaN] in *; try discriminate; auto;
          try (rewrite isNaN_round64 in En; discriminate);
          destruct (JS.Qsign _); cbn [JS.isNaN] in *; try discriminate; auto.
      * destruct (mul_isNaN _ _ En) as [-> ->]. simpl. split; [reflexivity|].
        intros H. exfalso. exact (toFixed_not_NA _ _ H).
Qed.

Lemma preview_agrees_with_details_witness :
  Form.calculateFee (Form.valuesOf (Sample.withGas "21000" "0.00000002"))
  = Details.calculateFee (Sample.withGas "21000" "0.00000002").
Proof.
  apply (proj1 (preview_agrees_with_details
                  (Sample.withGas "21000" "0.00000002"))).
  vm_compute. discriminate.
Defined.

(** X24.  A gas field left empty counts as zero in the preview, which then
    shows a fee of zero whatever finite number the other field holds, while
    the request that is submitted carries the default 21000 (gas limit) or
    0.00000002 (gas price) in its place. *)
Theorem empty_gas_previews_zero (v : Form.Values) :
  (Details.not_ (Form.v_gasLimit v) = true ->
   Form.p_gasLimit (Form.payload v) = "21000"
   /\ forall q, JS.parseFloat (Form.orElse (Form.v_gasPrice v) "0")
                = JS.Finite q ->
                Form.calculateFee v = "0.00000000")
  /\ (Details.not_ (Form.v_gasPrice v) = true ->
      Form.p_gasPrice (Form.payload v) = "0.00000002"
      /\ forall q, JS.parseFloat (Form.orElse (Form.v_gasLimit v) "0")
                   = JS.Finite q ->
                   Form.calculateFee v = "0.00000000").
Proof.
  unfold Form.calculateFee, Form.payload. cbn [Form.p_gasLimit Form.p_gasPrice].
  destruct parseFloat_zero as [z [Hz0 Hz]].
  split; intros H; rewrite !(orElse_falsy _ _ H); (split; [reflexivity|]);
    intros q Hq; rewrite Hq, Hz0; cbn [JS.isNaN orb].
  - now apply mul_zero_finite.
  - now apply mul_finite_zero.
Qed.

Lemma empty_gas_previews_zero_witness :
  Form.calculateFee (Form.mkValues "0xabc" "1" None (Some "0.00000002"))
  = "0.00000000".
Proof.
  eapply (proj2 (proj1 (empty_gas_previews_zero
                          (Form.mkValues "0xabc" "1" None (Some "0.00000002")))
                       eq_refl)).
  vm_compute. reflexivity.
Defined.

Section SchemaFacts.

Lemma is_hex_lower (c : ascii) :
  Form.is_hex c = true -> Form.is_hex (JS.lower_char c) = true.
Proof. destruct c as [[] [] [] [] [] [] [] []]; vm_compute; congruence. Qed.

Lemma is_hex_plain (c : ascii) :
  Form.is_hex c = true ->
  existsb (Ascii.eqb c) [Csv.DQUOTE; ","%char; Csv.LF] = false.
Proof. destruct c as [[] [] [] [] [] [] [] []]; vm_compute; congruence. Qed.

Lemma every_hex_lower (s : string) :
  JS.every Form.is_hex s = true ->
  JS.every Form.is_hex (JS.toLowerCase s) = true.
Proof.
  induction s as [|c s IH]; simpl; [reflexivity|].
  rewrite !andb_true_iff. intros [H1 H2]. split; [now apply is_hex_lower|auto].
Qed.

Lemma every_hex_plain (s : string) :
  JS.every Form.is_hex s = true ->
  JS.test_class [Csv.DQUOTE; ","%char; Csv.LF] s = false.
Proof.
  induction s as [|c s IH]; [reflexivity|].
  cbn [JS.every JS.test_class]. rewrite andb_true_iff. intros [H1 H2].
  now rewrite (is_hex_plain c H1), IH.
Qed.

Lemma length_toLowerCase (s : string) :
  String.length (JS.toLowerCase s) = String.length s.
Proof. induction s as [|c s IH]; simpl; auto. Qed.

Lemma plain_escapeCsv (s : string) :
  JS.test_class [Csv.DQUOTE; ","%char; Csv.LF] s = false -> Csv.escapeCsv s = s.
Proof.
  intros H. rewrite escapeCsv_spec. unfold Csv.spec_field.
  now rewrite <- test_class_contains, H.
Qed.

Lemma positive_not_NaN (x : JS.number) :
  Form.positive x = true -> JS.isNaN x = false.
Proof. destruct x; simpl; congruence. Qed.
End SchemaFacts.

(** X25.  An address the form accepts has 42 characters; the "required"
    check adds nothing to the pattern check; and the address stays
    acceptable when put in lower case and is exported to CSV as it is. *)
Theorem accepted_address (s : string) :
  Form.matchesAddress s = true ->
  String.length s = 42%nat
  /\ Form.toAddressValid s = true
  /\ Form.matchesAddress (JS.toLowerCase s) = true
  /\ Csv.escapeCsv s = s.
Proof.
  destruct s as [|c0 [|c1 body]]; try discriminate.
  unfold Form.toAddressValid, Form.matchesAddress.
  intros H. rewrite H.
  apply andb_true_iff in H. destruct H as [H Hhex].
  apply andb_true_iff in H. destruct H as [H Hlen].
  apply andb_true_iff in H. destruct H as [H0 H1].
  apply Ascii.eqb_eq in H0, H1. subst c0 c1.
  apply Nat.eqb_eq in Hlen.
  split; [simpl; lia|]. split; [reflexivity|]. split.
  - cbn [JS.toLowerCase]. rewrite length_toLowerCase, Hlen.
    now rewrite (every_hex_lower body Hhex).
  - apply plain_escapeCsv. cbn [JS.test_class].
    now rewrite (every_hex_plain body Hhex).
Qed.

Lemma accepted_address_witness :
  String.length "0x1234567890abcdef1234567890ABCDEF12345678" = 42%nat
  /\ Form.toAddressValid "0x1234567890abcdef1234567890ABCDEF12345678" = true
  /\ Form.matchesAddress
       (JS.toLowerCase "0x1234567890abcdef1234567890ABCDEF12345678") = true
  /\ Csv.escapeCsv "0x1234567890abcdef1234567890ABCDEF12345678"
     = "0x1234567890abcdef1234567890ABCDEF12345678".
Proof.
  apply (accepted_address "0x1234567890abcdef1234567890ABCDEF12345678").
  reflexivity.
Defined.

(** X26.  The form accepts an amount exactly when its parse is greater than
    zero: the "required" check and the NaN check add nothing; so an accepted
    amount is never one the amount sort would find unparseable. *)
Theorem accepted_amount (val : string) :
  Form.amountValid val = Form.positive (JS.parseFloat val)
  /\ (Form.amountValid val = true -> JS.isNaN (JS.parseFloat val) = false).
Proof.
  assert (H : Form.amountValid val = Form.positive (JS.parseFloat val)).
  { unfold Form.amountValid. destruct val as [|c val]; [reflexivity|].
    cbn [String.length Nat.leb andb].
    destruct (Form.positive _) eqn:E; [|apply andb_false_r].
    now rewrite (positive_not_NaN _ E). }
  split; [exact H|]. rewrite H. apply positive_not_NaN.
Qed.
